(** * OverPassAPI: a shallow embedding of the query / retry / parsing core

    The development follows the Python sources:

    - [src/models/bounding_box.py]      ([BoundingBox])
    - [src/models/polygon.py]           ([PolygonType], [Polygon])
    - [src/config.py]                   ([OverpassConfig])
    - [src/clients/overpass_client.py]  ([OverpassClient])
    - [src/repositories/polygon_repository.py] ([PolygonRepository])

    Conventions of the embedding.

    - Python [float] values (coordinates, bounds, the retry delay) are
      finite and are represented by rationals [Q]; [==], [<=], [>=] on
      them are the numeric comparisons [Qeq_bool] and [Qle_bool], which
      are exact on finite floats.  Float arithmetic rounds: the four
      operations are a parameter [Float.arith] of the functions that use
      them, the backoff delay, a float scaled by a power of two, is exact
      until it overflows, and the value of [get_area] is studied on the
      binary64 numbers themselves, in [Binary64].
    - Python [int] values are [Z].
    - A [dict] used as a map is a [gmap]; the polygon cache is
      [gmap Z Polygon].
    - Effects (the HTTP collaborator, [time.sleep], the cache) are threaded
      through a state-and-exception monad [M]; a raised exception keeps the
      state reached so far, as in Python.  What [requests.get] answers and
      which lengths [time.sleep] refuses are parameters [net] and
      [clock]. *)

From Stdlib Require Import Floats.
From Stdlib Require Import ZArith QArith Qabs Bool List Lia Lqa.
From stdpp Require Import base gmap strings list fin_maps.

Local Open Scope Z_scope.
Set Warnings "-inexact-float".

(** ** Numeric comparisons on floats *)

Module Float.

(** [a <= b] *)
Definition le (a b : Q) : bool := Qle_bool a b.

(** [a >= b] *)
Definition ge (a b : Q) : bool := Qle_bool b a.

(** [a == b] *)
Definition eq (a b : Q) : bool := Qeq_bool a b.

(** [a < b], as the negation of [a >= b] on finite floats *)
Definition lt (a b : Q) : bool := negb (Qle_bool b a).

(** the chained comparison [lo <= x <= hi] *)
Definition between (lo x hi : Q) : bool := le lo x && le x hi.

(** [+], [-], [*] and [/] on floats round the exact result, and the
    builtin [sum] adds a list of floats from left to right or, from
    Python 3.12 on, with a compensated algorithm.  What they return on
    finite values is a parameter of the embedding: nothing proved with
    an [arith] depends on how they round. *)
Record arith := mkArith {
  add : Q -> Q -> Q;
  sub : Q -> Q -> Q;
  mul : Q -> Q -> Q;
  div : Q -> Q -> Q;
  sum : list Q -> Q
}.

End Float.

(** ** [src/models/bounding_box.py] *)

Record BoundingBox := mkBoundingBox {
  lat_min : Q;
  lon_min : Q;
  lat_max : Q;
  lon_max : Q
}.

Module BBox.

(** [BoundingBox.is_valid]: six guards, each returning [False]. *)
Definition is_valid (b : BoundingBox) : bool :=
  if Float.ge (lat_min b) (lat_max b) then false
  else if Float.ge (lon_min b) (lon_max b) then false
  else if negb (Float.between (-90 # 1) (lat_min b) (90 # 1)) then false
  else if negb (Float.between (-90 # 1) (lat_max b) (90 # 1)) then false
  else if negb (Float.between (-180 # 1) (lon_min b) (180 # 1)) then false
  else if negb (Float.between (-180 # 1) (lon_max b) (180 # 1)) then false
  else true.

(** A value lies outside the closed interval [[lo, hi]]. *)
Definition outside (lo hi x : Q) : Prop := (x < lo)%Q \/ (hi < x)%Q.

(** The six rejecting conditions of the specification. *)
Definition rejected (b : BoundingBox) : Prop :=
  (lat_max b <= lat_min b)%Q \/
  (lon_max b <= lon_min b)%Q \/
  outside (-90 # 1) (90 # 1) (lat_min b) \/
  outside (-90 # 1) (90 # 1) (lat_max b) \/
  outside (-180 # 1) (180 # 1) (lon_min b) \/
  outside (-180 # 1) (180 # 1) (lon_max b).

(** [BoundingBox.to_overpass].  The f-string formats each float with
    Python's [str]; that conversion is the parameter [str]. *)
Definition to_overpass (str : Q -> string) (b : BoundingBox) : string :=
  "(" +:+ str (lat_min b) +:+ "," +:+ str (lon_min b) +:+ ","
      +:+ str (lat_max b) +:+ "," +:+ str (lon_max b) +:+ ")".

End BBox.

(** ** Exceptions and results *)

(** The subclasses of [requests.exceptions.RequestException] the client
    can meet. *)
Inductive RequestError :=
  | ConnectionError
  | Timeout
  | HTTPError (status : Z)
  | JSONDecodeError.

(** Python exceptions (subclasses of [Exception]) raised in the modelled
    code or by its collaborators. *)
Inductive exn :=
  | RequestException (r : RequestError)
  | ValueError (msg : string)
  | KeyError (key : string)
  | IndexError
  | TypeError
  | AttributeError
  | NotImplementedError (msg : string)
  | OverflowError
  | OtherException (name : string).

(** [isinstance(e, requests.exceptions.RequestException)] *)
Definition is_RequestException (e : exn) : bool :=
  match e with RequestException _ => true | _ => false end.

(** The outcome of evaluating a Python expression: a value or a raised
    exception. *)
Inductive result (A : Type) :=
  | Ok (a : A)
  | Raise (e : exn).
Arguments Ok {A} a.
Arguments Raise {A} e.

#[global] Instance result_ret : MRet result := fun A a => Ok a.
#[global] Instance result_bind : MBind result := fun A B f r =>
  match r with Ok a => f a | Raise e => Raise e end.
#[global] Instance result_fmap : FMap result := fun A B f r =>
  match r with Ok a => Ok (f a) | Raise e => Raise e end.

(** [seq[0]] on a Python list *)
Definition getitem0 {A} (l : list A) : result A :=
  match l with
  | [] => Raise IndexError
  | x :: _ => Ok x
  end.

(** [d[key]] on an optional field of a JSON object *)
Definition getitem {A} (key : string) (field : option A) : result A :=
  match field with
  | Some v => Ok v
  | None => Raise (KeyError key)
  end.

(** ** [src/models/polygon.py] *)

Inductive PolygonType := WAY | RELATION | NODE.

#[global] Instance PolygonType_eq_dec : EqDecision PolygonType.
Proof. solve_decision. Defined.

(** [PolygonType.value] *)
Definition value (k : PolygonType) : string :=
  match k with
  | WAY => "way"
  | RELATION => "relation"
  | NODE => "node"
  end.

(** A coordinate pair [[lon, lat]]. *)
Definition point : Type := Q * Q.

(** [==] on two coordinate pairs *)
Definition point_eqb (a b : point) : bool :=
  Float.eq (fst a) (fst b) && Float.eq (snd a) (snd b).

(** Values stored in a [properties] dict ([Any]). *)
Inductive pyval :=
  | PyNone
  | PyBool (b : bool)
  | PyInt (n : Z)
  | PyFloat (x : Q)
  | PyStr (s : string).

Record Polygon := mkPolygon {
  osm_id : Z;
  polygon_type : PolygonType;
  coordinates : list point;
  tags : gmap string string;
  properties : gmap string pyval
}.

(** GeoJSON output of [to_geojson_feature]. *)
Record Geometry := mkGeometry {
  geometry_type : string;
  geometry_coordinates : list (list point)
}.

Record Feature := mkFeature {
  feature_type : string;
  feature_geometry : Geometry;
  feature_properties : gmap string pyval
}.

Record FeatureCollection := mkFeatureCollection {
  collection_type : string;
  features : list Feature
}.

Module Poly.

(** [self.coordinates[0] == self.coordinates[-1]]; on an empty list the
    indexing cannot be evaluated, and the callers below only reach it
    with at least three coordinates. *)
Definition first_eq_last (cs : list point) : bool :=
  match head cs, last cs with
  | Some a, Some b => point_eqb a b
  | _, _ => false
  end.

(** [Polygon.is_closed] *)
Definition is_closed (p : Polygon) : bool :=
  if (Z.of_nat (length (coordinates p)) <? 3)%Z then false
  else first_eq_last (coordinates p).

(** [self.coordinates.append(x)] *)
Definition append (p : Polygon) (x : point) : Polygon :=
  mkPolygon (osm_id p) (polygon_type p) (coordinates p ++ [x])
            (tags p) (properties p).

(** [Polygon.close]: appends [coordinates[0]] unless [is_closed()];
    the indexing raises [IndexError] on an empty list. *)
Definition close (p : Polygon) : result Polygon :=
  if negb (is_closed p) then
    c0 ← getitem0 (coordinates p);
    mret (append p c0)
  else mret p.

(** [Polygon.is_valid] *)
Definition is_valid (p : Polygon) : bool :=
  if (Z.of_nat (length (coordinates p)) <? 3)%Z then false
  else is_closed p.

Section Arithmetic.

Variable fa : Float.arith.

(** The loop of [get_area]: for [i] in [range(len - 1)], accumulate
    [x1 * y2 - x2 * y1] over consecutive pairs. *)
Fixpoint shoelace (cs : list point) (area : Q) : Q :=
  match cs with
  | (x1, y1) :: (((x2, y2) :: _) as rest) =>
      shoelace rest
        (Float.add fa area
           (Float.sub fa (Float.mul fa x1 y2) (Float.mul fa x2 y1)))
  | _ => area
  end.

(** [Polygon.get_area] on finite values, whatever its arithmetic rounds
    to; [abs] of a float is exact.  [Binary64.get_area] below is the same
    method with the binary64 operations. *)
Definition get_area (p : Polygon) : Q :=
  if negb (is_closed p) || (Z.of_nat (length (coordinates p)) <? 3)%Z
  then 0%Q
  else Float.div fa (Qabs (shoelace (coordinates p) 0)) (2 # 1).

End Arithmetic.

(** [dict.update]: the entries of [other] replace those of [d]. *)
Definition update {V} (d other : gmap string V) : gmap string V :=
  other ∪ d.

(** The [properties] dict literal of [to_geojson_feature]:
    ["osm_id"], ["type"], then [**self.tags], then [**self.properties],
    built left to right. *)
Definition feature_props (p : Polygon) : gmap string pyval :=
  let d0 := <["osm_id" := PyInt (osm_id p)]> (∅ : gmap string pyval) in
  let d1 := <["type" := PyStr (value (polygon_type p))]> d0 in
  let d2 := update d1 (PyStr <$> tags p) in
  update d2 (properties p).

(** [Polygon.to_geojson_feature] *)
Definition to_geojson_feature (p : Polygon) : Feature :=
  mkFeature "Feature"
            (mkGeometry "Polygon" [coordinates p])
            (feature_props p).

End Poly.

(** ** [Polygon.is_closed] and [Polygon.get_area] on binary64 floats

    The value [get_area] returns depends on how every product, difference
    and sum of its loop rounds, and on overflow.  Statements about that
    value are made on the IEEE 754 binary64 numbers of CPython, with the
    operations of the format.  Both methods read [self.coordinates]
    only, here a list of pairs of binary64 numbers. *)
Module Binary64.

Definition point : Type := float * float.

(** [==] on two coordinate pairs: IEEE equality of both components, so a
    NaN is equal to nothing and the two zeros are equal. *)
Definition point_eqb (a b : point) : bool :=
  (a.1 =? b.1)%float && (a.2 =? b.2)%float.

(** [coordinates[0] == coordinates[-1]] *)
Definition first_eq_last (coordinates : list point) : bool :=
  match head coordinates, last coordinates with
  | Some a, Some b => point_eqb a b
  | _, _ => false
  end.

(** [Polygon.is_closed] *)
Definition is_closed (coordinates : list point) : bool :=
  if (Z.of_nat (length coordinates) <? 3)%Z then false
  else first_eq_last coordinates.

(** The loop of [get_area], from [area]. *)
Fixpoint shoelace (coordinates : list point) (area : float) : float :=
  match coordinates with
  | (x1, y1) :: (((x2, y2) :: _) as rest) =>
      shoelace rest (area + (x1 * y2 - x2 * y1))%float
  | _ => area
  end.

(** [Polygon.get_area] *)
Definition get_area (coordinates : list point) : float :=
  if negb (is_closed coordinates) || (Z.of_nat (length coordinates) <? 3)%Z
  then 0%float
  else (abs (shoelace coordinates 0) / 2)%float.

End Binary64.

(** [PolygonService.convert_to_geojson] *)
Definition convert_to_geojson (polygons : list Polygon) : FeatureCollection :=
  mkFeatureCollection "FeatureCollection"
                      (map Poly.to_geojson_feature polygons).


(** ** [src/config.py] *)

Record OverpassConfig := mkOverpassConfig {
  url : string;
  timeout : Z;
  max_retries : Z;
  retry_delay : Q
}.

Definition DEFAULT_CONFIG : OverpassConfig :=
  mkOverpassConfig "https://overpass-api.de/api/interpreter" 30 3 1%Q.

(** ** The decoded Overpass response *)

(** One entry of a [geometry] array; a key may be missing, in which case
    [node["lon"]] or [node["lat"]] raises [KeyError]. *)
Record Node := mkNode {
  node_lat : option Q;
  node_lon : option Q
}.

(** One JSON object of the [elements] array.  Every Overpass element
    carries an integer [id]; [type], [tags] and [geometry] are read with
    [get] or guarded by [in] and may be absent. *)
Record Element := mkElement {
  el_type : option string;
  el_id : Z;
  el_tags : option (gmap string string);
  el_geometry : option (list Node)
}.

(** An entry of the [elements] array: a JSON object, or a JSON scalar
    ([null], a number, a boolean), on which [.get] raises
    [AttributeError]. *)
Inductive Item :=
  | ItemObject (e : Element)
  | ItemScalar.

(** A value stored under a key of the response dict: an array of items,
    or a JSON scalar, which cannot be iterated ([TypeError]). *)
Inductive JValue :=
  | JArray (items : list Item)
  | JScalar.

(** The dict returned by [response.json()]. *)
Abbreviation Payload := (gmap string JValue).

(** ** The effects: HTTP collaborator, clock, cache *)

(** What [requests.get] hands back: the status code and the body, decoded
    when it parses as a JSON object. *)
Record Response := mkResponse {
  status_code : Z;
  body : option Payload
}.

(** The outcome of one call of [requests.get]. *)
Inductive GetOutcome :=
  | Responds (r : Response)
  | Fails (e : exn).

(** Observable actions, in the order they happen. *)
Inductive event :=
  | EGet (url : string) (data : string) (timeout : Z)
  | ESleep (seconds : Q).

(** The state threaded through a call: how many [requests.get] calls have
    been made, the actions so far, and the repository's [_cache]. *)
Record state := mkState {
  calls : nat;
  events : list event;
  cache : gmap Z Polygon
}.

(** Computations with state and exceptions. *)
Definition M (A : Type) : Type := state -> result A * state.

#[global] Instance M_ret : MRet M := fun A a s => (Ok a, s).
#[global] Instance M_bind : MBind M := fun A B f m s =>
  match m s with
  | (Ok a, s') => f a s'
  | (Raise e, s') => (Raise e, s')
  end.

(** [raise e] *)
Definition raise {A} (e : exn) : M A := fun s => (Raise e, s).

(** Lifting of a pure outcome. *)
Definition lift {A} (r : result A) : M A := fun s => (r, s).

(** [try: body  except <filter> as e: handler e]; an exception the
    filter does not match propagates. *)
Definition try_except {A} (body : M A) (filter : exn -> bool)
    (handler : exn -> M A) : M A := fun s =>
  match body s with
  | (Ok a, s') => (Ok a, s')
  | (Raise e, s') => if filter e then handler e s' else (Raise e, s')
  end.

(** [except Exception] *)
Definition any_Exception (e : exn) : bool := true.

(** [range(n)] *)
Definition range (n : Z) : list Z := Z.of_nat <$> seq 0 (Z.to_nat n).


(** How a [try] statement inside a loop body ends: by [return v], or by
    falling through to the next iteration. *)
Inductive control (A : Type) :=
  | Return (v : A)
  | Continue.
Arguments Return {A} v.
Arguments Continue {A}.

(** The HTTP and clock collaborators.  [net n] is the outcome of the
    call of [requests.get] that follows [n] earlier calls; [clock d] is
    what [time.sleep] raises on the length [d], if anything. *)
Module Lib.
Section Network.

Variable net : nat -> GetOutcome.

(** [requests.get(url, params={"data": data}, timeout=timeout)] *)
Definition requests_get (url data : string) (timeout : Z) : M Response :=
  fun s =>
    let s' := mkState (S (calls s))
                      (events s ++ [EGet url data timeout]) (cache s) in
    match net (calls s) with
    | Responds r => (Ok r, s')
    | Fails e => (Raise e, s')
    end.

End Network.

(** [response.raise_for_status()]: [HTTPError] on a 4xx or 5xx status. *)
Definition raise_for_status (r : Response) : result unit :=
  if (400 <=? status_code r) && (status_code r <? 600)
  then Raise (RequestException (HTTPError (status_code r)))
  else Ok tt.

(** [response.json()]: a body that does not decode raises
    [requests.exceptions.JSONDecodeError]. *)
Definition json (r : Response) : result Payload :=
  match body r with
  | Some d => Ok d
  | None => Raise (RequestException JSONDecodeError)
  end.

(** The largest finite float, [sys.float_info.max]. *)
Definition float_max : Q := inject_Z ((2 ^ 53 - 1) * 2 ^ 971).

(** [x * (2 ** k)] for a float [x] and an int [k >= 0].  The int operand
    is converted to a float first, which raises [OverflowError] from
    [2 ** 1024] on.  The product of a float by a power of two is not
    rounded: it is the exact product when that is at most [float_max] in
    magnitude, and infinite otherwise; [None] is an infinite product. *)
Definition float_mul_pow2 (x : Q) (k : Z) : result (option Q) :=
  if 1024 <=? k then Raise OverflowError
  else
    let product := (x * inject_Z (2 ^ k))%Q in
    if Float.le (Qabs product) float_max then Ok (Some product)
    else Ok None.

Section Clock.

(** [time.sleep] refuses some lengths: CPython raises [ValueError] on a
    negative one and [OverflowError] on one beyond the range of the
    platform's timestamps.  [clock seconds] is the exception raised on the
    finite length [seconds], if it is refused. *)
Variable clock : Q -> option exn.

(** [time.sleep(seconds)]; [None] is an infinite length, which no
    timestamp holds. *)
Definition time_sleep (seconds : option Q) : M unit := fun s =>
  match seconds with
  | None => (Raise OverflowError, s)
  | Some d =>
      match clock d with
      | Some e => (Raise e, s)
      | None =>
          (Ok tt, mkState (calls s) (events s ++ [ESleep d]) (cache s))
      end
  end.

End Clock.

End Lib.

(** ** [src/clients/overpass_client.py] *)

Module Client.
Section Network.

Variable net : nat -> GetOutcome.
Variable clock : Q -> option exn.
Variable config : OverpassConfig.

(** [self.config.retry_delay * (2 ** attempt)] *)
Definition wait_time (attempt : Z) : result (option Q) :=
  Lib.float_mul_pow2 (retry_delay config) attempt.

(** The body of the [for] loop of [query] for one value of [attempt]. *)
Definition attempt_once (overpass_ql : string) (attempt : Z)
  : M (control Payload) :=
  try_except
    (response ← Lib.requests_get net (url config) overpass_ql
                                 (timeout config);
     _ ← lift (Lib.raise_for_status response);
     data ← lift (Lib.json response);
     mret (Return data))
    is_RequestException
    (fun e =>
       if attempt <? max_retries config - 1 then
         wait_time ← lift (wait_time attempt);
         _ ← Lib.time_sleep clock wait_time;
         mret Continue
       else raise e).

(** [for attempt in <attempts>: ...] followed by [return {}]. *)
Fixpoint query_loop (overpass_ql : string) (attempts : list Z)
  : M Payload :=
  match attempts with
  | [] => mret ∅
  | attempt :: rest =>
      c ← attempt_once overpass_ql attempt;
      match c with
      | Return data => mret data
      | Continue => query_loop overpass_ql rest
      end
  end.

(** [OverpassClient.query] *)
Definition query (overpass_ql : string) : M Payload :=
  query_loop overpass_ql (range (max_retries config)).

(** [OverpassClient.is_available] *)
Definition is_available : M bool :=
  try_except
    (response ← Lib.requests_get net (url config)
                  "[bbox:0,0,0.1,0.1];node;out count;" 5;
     mret (status_code response =? 200))
    is_RequestException
    (fun _ => mret false).

End Network.
End Client.


(** ** [src/repositories/polygon_repository.py]

    The [print] calls of the error handlers write to standard output,
    which is not part of the state. *)

(** The characters an f-string needs and a literal cannot hold. *)
Definition dquote : string := String (Ascii.ascii_of_nat 34) EmptyString.
Definition newline : string := String (Ascii.ascii_of_nat 10) EmptyString.

Module Repo.

(** [self._cache[item.osm_id] = item; return item] *)
Definition save (item : Polygon) : M Polygon := fun s =>
  (Ok item,
   mkState (calls s) (events s) (<[osm_id item := item]> (cache s))).

(** [PolygonRepository.delete] *)
Definition delete (item_id : Z) : M bool := fun s =>
  if bool_decide (is_Some (cache s !! item_id))
  then (Ok true, mkState (calls s) (events s) (base.delete item_id (cache s)))
  else (Ok false, s).

(** [PolygonRepository.find_by_id] *)
Definition find_by_id (item_id : Z) : M (option Polygon) := fun s =>
  (Ok (cache s !! item_id), s).

(** [PolygonRepository.find_all] *)
Definition find_all : M (list Polygon) :=
  raise (NotImplementedError
           "Utilisez find_by_bbox() pour récupérer les polygones").

(** [PolygonRepository.clear_cache] *)
Definition clear_cache : M unit := fun s =>
  (Ok tt, mkState (calls s) (events s) ∅).

(** [PolygonRepository.get_cache_size] *)
Definition get_cache_size : M Z := fun s =>
  (Ok (Z.of_nat (size (cache s))), s).

(** [PolygonRepository._build_tag_conditions]: one clause per entry, in
    the iteration order of [tags.items()]. *)
Definition _build_tag_conditions (tags : list (string * string)) : string :=
  foldl (fun conditions kv =>
           conditions +:+ "[" +:+ dquote +:+ kv.1 +:+ dquote +:+ "="
                      +:+ dquote +:+ kv.2 +:+ dquote +:+ "]")
        EmptyString tags.

(** The loop [for node in element["geometry"]:
    coordinates.append([node["lon"], node["lat"]])]. *)
Fixpoint project (geometry : list Node) (coordinates : list point)
  : result (list point) :=
  match geometry with
  | [] => mret coordinates
  | node :: rest =>
      lon ← getitem "lon" (node_lon node);
      lat ← getitem "lat" (node_lat node);
      project rest (coordinates ++ [(lon, lat)])
  end.

(** The [try] block of [_parse_element]. *)
Definition parse_element_body (element : Element)
    (polygon_type : PolygonType) : result (option Polygon) :=
  let osm_id := el_id element in
  let tags := default ∅ (el_tags element) in
  coordinates ←
    (match el_geometry element with
     | Some geometry => project geometry []
     | None => mret []
     end);
  match coordinates with
  | [] => mret None
  | _ :: _ =>
      let polygon := mkPolygon osm_id polygon_type coordinates tags ∅ in
      polygon ←
        (if bool_decide (polygon_type = WAY)
         then Poly.close polygon
         else mret polygon);
      mret (Some polygon)
  end.

(** [PolygonRepository._parse_element]: [except Exception] answers
    [None]. *)
Definition _parse_element (element : Element)
    (polygon_type : PolygonType) : option Polygon :=
  match parse_element_body element polygon_type with
  | Ok r => r
  | Raise _ => None
  end.

(** [for element in <v>]: the items of an array *)
Definition iterate (v : JValue) : result (list Item) :=
  match v with
  | JArray items => Ok items
  | JScalar => Raise TypeError
  end.

(** The [for element in data["elements"]] loop of [_query_and_parse],
    followed by [return polygons].  On an entry that is not an object,
    [element.get] raises [AttributeError]. *)
Fixpoint parse_loop (polygon_type : PolygonType) (elements : list Item)
    (polygons : list Polygon) : M (list Polygon) :=
  match elements with
  | [] => mret polygons
  | ItemScalar :: _ => raise AttributeError
  | ItemObject element :: rest =>
      if bool_decide (el_type element = Some (value polygon_type)) then
        match _parse_element element polygon_type with
        | Some polygon =>
            _ ← save polygon;
            parse_loop polygon_type rest (polygons ++ [polygon])
        | None => parse_loop polygon_type rest polygons
        end
      else parse_loop polygon_type rest polygons
  end.

Section Repository.

Variable net : nat -> GetOutcome.
Variable clock : Q -> option exn.
Variable config : OverpassConfig.
Variable str : Q -> string.

(** The [try] block of [_query_and_parse]. *)
Definition query_and_parse_body (query : string)
    (polygon_type : PolygonType) : M (list Polygon) :=
  data ← Client.query net clock config query;
  if Nat.eqb (size data) 0
     || negb (bool_decide (is_Some (data !! "elements")))
  then mret []
  else
    v ← lift (getitem "elements" (data !! "elements"));
    elements ← lift (iterate v);
    parse_loop polygon_type elements [].

(** [PolygonRepository._query_and_parse]: [except Exception] answers the
    empty list. *)
Definition _query_and_parse (query : string) (polygon_type : PolygonType)
  : M (list Polygon) :=
  try_except (query_and_parse_body query polygon_type)
             any_Exception
             (fun _ => mret []).

(** The query text built by [find_ways]. *)
Definition way_query (bbox : BoundingBox) (tags : list (string * string))
  : string :=
  newline +:+ "[bbox:" +:+ BBox.to_overpass str bbox +:+ "];" +:+ newline
  +:+ "(" +:+ newline
  +:+ "  way" +:+ _build_tag_conditions tags +:+ ";" +:+ newline
  +:+ ");" +:+ newline
  +:+ "out geom;" +:+ newline.

(** The query text built by [find_relations]. *)
Definition relation_query (bbox : BoundingBox)
    (tags : list (string * string)) : string :=
  newline +:+ "[bbox:" +:+ BBox.to_overpass str bbox +:+ "];" +:+ newline
  +:+ "(" +:+ newline
  +:+ "  relation" +:+ _build_tag_conditions tags +:+ ";" +:+ newline
  +:+ ");" +:+ newline
  +:+ "out count;" +:+ newline.

(** The [ValueError] of an invalid bounding box. *)
Definition invalid_bbox (bbox : BoundingBox) : exn :=
  ValueError ("BoundingBox invalide: " +:+ BBox.to_overpass str bbox).

(** [PolygonRepository.find_ways] *)
Definition find_ways (bbox : BoundingBox)
    (tags : option (list (string * string))) : M (list Polygon) :=
  if negb (BBox.is_valid bbox) then raise (invalid_bbox bbox)
  else
    let tags := default [("building", "yes")] tags in
    _query_and_parse (way_query bbox tags) WAY.

(** [PolygonRepository.find_relations] *)
Definition find_relations (bbox : BoundingBox)
    (tags : option (list (string * string))) : M (list Polygon) :=
  if negb (BBox.is_valid bbox) then raise (invalid_bbox bbox)
  else
    let tags := default [("boundary", "administrative")] tags in
    data ← Client.query net clock config (relation_query bbox tags);
    mret [].

(** [PolygonRepository.find_by_tags] *)
Definition find_by_tags (bbox : BoundingBox)
    (tags : list (string * string)) : M (list Polygon) :=
  find_ways bbox (Some tags).

End Repository.
End Repo.


(** ** [src/services/polygon_service.py] *)

(** The dict returned by [get_statistics]. *)
Record Statistics := mkStatistics {
  count : Z;
  avg_area : Q;
  min_area : Q;
  max_area : Q;
  total_area : Q
}.

Module Service.

Section Repository.

Variable net : nat -> GetOutcome.
Variable clock : Q -> option exn.
Variable config : OverpassConfig.
Variable str : Q -> string.

(** [PolygonService.get_buildings] *)
Definition get_buildings (bbox : BoundingBox) : M (list Polygon) :=
  let tags := [("building", "yes")] in
  Repo.find_ways net clock config str bbox (Some tags).

(** [PolygonService.get_industrial_zones] *)
Definition get_industrial_zones (bbox : BoundingBox) : M (list Polygon) :=
  let tags := [("landuse", "industrial")] in
  Repo.find_ways net clock config str bbox (Some tags).

(** [PolygonService.get_water_areas] *)
Definition get_water_areas (bbox : BoundingBox) : M (list Polygon) :=
  let tags := [("natural", "water")] in
  Repo.find_ways net clock config str bbox (Some tags).

(** [PolygonService.get_parks] *)
Definition get_parks (bbox : BoundingBox) : M (list Polygon) :=
  let tags := [("leisure", "park")] in
  Repo.find_ways net clock config str bbox (Some tags).

(** [PolygonService.get_polygons_by_tags] *)
Definition get_polygons_by_tags (bbox : BoundingBox)
    (tags : list (string * string)) : M (list Polygon) :=
  Repo.find_by_tags net clock config str bbox tags.

End Repository.

(** [PolygonService.filter_by_area] *)
Definition filter_by_area (fa : Float.arith) (polygons : list Polygon)
    (min_area : Q) (max_area : option Q) : list Polygon :=
  let filtered :=
    List.filter (fun p => Float.ge (Poly.get_area fa p) min_area) polygons in
  match max_area with
  | Some max_area =>
      List.filter (fun p => Float.le (Poly.get_area fa p) max_area) filtered
  | None => filtered
  end.

(** [PolygonService.filter_by_tag_value]: [p.tags.get(tag_key) ==
    tag_value], where a missing key gives [None]. *)
Definition filter_by_tag_value (polygons : list Polygon)
    (tag_key tag_value : string) : list Polygon :=
  List.filter (fun p => bool_decide (tags p !! tag_key = Some tag_value))
              polygons.

(** [min(areas)] on a list with head [first]: a later item replaces the
    current minimum when it is strictly smaller. *)
Definition py_min (first : Q) (rest : list Q) : Q :=
  foldl (fun m a => if Float.lt a m then a else m) first rest.

(** [max(areas)] on a list with head [first]: a later item replaces the
    current maximum when it is strictly greater. *)
Definition py_max (first : Q) (rest : list Q) : Q :=
  foldl (fun m a => if Float.lt m a then a else m) first rest.

(** [PolygonService.get_statistics]; [len(polygons)] is converted to a
    float by the division. *)
Definition get_statistics (fa : Float.arith) (polygons : list Polygon)
  : Statistics :=
  match polygons with
  | [] => mkStatistics 0 0 0 0 0
  | p :: ps =>
      let areas := Poly.get_area fa <$> polygons in
      let total_area := Float.sum fa areas in
      let len := Z.of_nat (length polygons) in
      mkStatistics len
                   (Float.div fa total_area (inject_Z len))
                   (py_min (Poly.get_area fa p) (Poly.get_area fa <$> ps))
                   (py_max (Poly.get_area fa p) (Poly.get_area fa <$> ps))
                   total_area
  end.

End Service.

(** ** Vocabulary of the statements *)

(** What one attempt of [query] yields from the collaborator's outcome:
    [requests.get], then [raise_for_status], then [json]. *)
Definition attempt_outcome (o : GetOutcome) : result Payload :=
  match o with
  | Fails e => Raise e
  | Responds r => _ ← Lib.raise_for_status r; Lib.json r
  end.

(** The actions of [k] failed attempts, numbered from [a], each followed
    by its backoff sleep, and of one more attempt. *)
Definition retry_events (config : OverpassConfig) (overpass_ql : string)
    (a k : nat) : list event :=
  let get := EGet (url config) overpass_ql (timeout config) in
  flat_map (fun i =>
              [get; ESleep (retry_delay config * inject_Z (2 ^ Z.of_nat i))%Q])
           (seq a k)
  ++ [get].

(** What the backoff after attempt number [attempt] raises when it does
    not go through: the [OverflowError] of the float product or of an
    infinite delay, or what [time.sleep] raises on the delay. *)
Definition refused (clock : Q -> option exn) (config : OverpassConfig)
    (attempt : Z) : option exn :=
  match Client.wait_time config attempt with
  | Raise e => Some e
  | Ok None => Some OverflowError
  | Ok (Some seconds) => clock seconds
  end.

(** The backoff after attempt number [i] goes through: [2 ** i] converts
    to a float, the delay [retry_delay * 2^i] is a finite float, and
    [time.sleep] accepts it. *)
Definition backoff_accepted (clock : Q -> option exn)
    (config : OverpassConfig) (i : nat) : Prop :=
  Z.of_nat i < 1024 /\
  (Qabs (retry_delay config * inject_Z (2 ^ Z.of_nat i)) <= Lib.float_max)%Q /\
  clock (retry_delay config * inject_Z (2 ^ Z.of_nat i))%Q = None.

(** The number of [requests.get] calls in a list of actions. *)
Definition is_get (e : event) : bool :=
  match e with EGet _ _ _ => true | ESleep _ => false end.

Definition count_gets (es : list event) : nat :=
  length (List.filter is_get es).

(** The backoff sleeps in a list of actions, in order. *)
Definition sleeps (es : list event) : list Q :=
  omap (fun e => match e with ESleep d => Some d | EGet _ _ _ => None end) es.


(** A geometry whose points all carry both keys, from its
    [(lat, lon)] pairs, in order. *)
Definition geometry_of (pts : list (Q * Q)) : list Node :=
  (fun ll => mkNode (Some ll.1) (Some ll.2)) <$> pts.

(** The same points in [[lon, lat]] order. *)
Definition lon_lat (pts : list (Q * Q)) : list point :=
  (fun ll => (ll.2, ll.1)) <$> pts.

(** A second [close()] on the polygon parsed from [element] as a way
    keeps the number of coordinates. *)
Definition second_close_keeps_length (element : Element) : Prop :=
  forall p p' : Polygon,
    Repo._parse_element element WAY = Some p ->
    Poly.close p = Ok p' ->
    length (coordinates p') = length (coordinates p).

(** The polygons a batch of JSON objects contributes, in order: the
    elements of the requested type that parse. *)
Definition parsed (k : PolygonType) (elements : list Element) : list Polygon :=
  omap (fun e => if bool_decide (el_type e = Some (value k))
                 then Repo._parse_element e k else None) elements.

(** The cache after saving a list of polygons one after the other. *)
Definition saved (polygons : list Polygon) (c : gmap Z Polygon)
  : gmap Z Polygon :=
  foldl (fun c p => <[osm_id p := p]> c) c polygons.

(** The computed entries of a feature survive the polygon's tags: unless
    the caller's [properties] say otherwise, ["type"] is the kind and
    ["osm_id"] is the id. *)
Definition computed_entries_kept (p : Polygon) : Prop :=
  let props := feature_properties (Poly.to_geojson_feature p) in
  (properties p !! "type" = None ->
   props !! "type" = Some (PyStr (value (polygon_type p)))) /\
  (properties p !! "osm_id" = None ->
   props !! "osm_id" = Some (PyInt (osm_id p))).

(** Every [requests.get] among the actions [new] carries the request
    [get]. *)
Definition issues_only (get : event) (new : list event) : Prop :=
  Forall (fun e => is_get e = true -> e = get) new.

(** ** Sample data

    The fixtures of [tests/conftest.py] and a few responses of the
    collaborator, used to run the definitions. *)

(** The unit square of the [simple_polygon] fixture. *)
Definition simple_polygon : Polygon :=
  mkPolygon 123 WAY
            [(0, 0); (1, 0); (1, 1); (0, 1); (0, 0)]%Q
            {[ "building" := "yes" ]} ∅.

(** The [triangle_polygon] fixture, under the id of [simple_polygon]. *)
Definition triangle_polygon : Polygon :=
  mkPolygon 123 WAY
            [(0, 0); (1, 0); (1 # 2, 1); (0, 0)]%Q
            {[ "landuse" := "park" ]} ∅.

(** A polygon whose tags carry a key the feature also computes. *)
Definition tagged_polygon : Polygon :=
  mkPolygon 7 WAY
            [(0, 0); (1, 0); (1, 1); (0, 0)]%Q
            {[ "type" := "multipolygon" ]} ∅.

(** A valid bounding box (Paris) and a box with its latitudes swapped. *)
Definition valid_bbox : BoundingBox :=
  mkBoundingBox (4881 # 100) (222 # 100) (4890 # 100) (247 # 100).
Definition invalid_bbox_reversed : BoundingBox :=
  mkBoundingBox (4890 # 100) (222 # 100) (4881 # 100) (247 # 100).

(** [time.sleep] as CPython runs it: the length is converted to a 64-bit
    count of nanoseconds, with [OverflowError] when it does not fit, and a
    negative count is refused with [ValueError].  The rounding of the
    conversion, which matters only next to the two bounds, is left
    out. *)
Definition cpython_clock (seconds : Q) : option exn :=
  let ns := (seconds * inject_Z (10 ^ 9))%Q in
  if Float.lt ns (inject_Z (- 2 ^ 63)) || Float.le (inject_Z (2 ^ 63)) ns
  then Some OverflowError
  else if Float.lt seconds 0
  then Some (ValueError "sleep length must be non-negative")
  else None.

(** The default configuration with a retry delay of [1e10] seconds. *)
Definition slow_config : OverpassConfig :=
  mkOverpassConfig "https://overpass-api.de/api/interpreter" 30 3
                   (inject_Z (10 ^ 10)).

(** Two timeouts, then a 200 answer carrying an empty JSON object. *)
Definition flaky_net (n : nat) : GetOutcome :=
  if (n <? 2)%nat then Fails (RequestException Timeout)
  else Responds (mkResponse 200 (Some ∅)).


(** Raw elements: a way with three distinct points, a way with a single
    point, a way without geometry, and a way one of whose nodes lacks its
    longitude. *)
Definition open_way : Element :=
  mkElement (Some "way") 1 (Some {[ "building" := "yes" ]})
            (Some [mkNode (Some 0) (Some 0); mkNode (Some 0) (Some 1);
                   mkNode (Some 1) (Some 1)]%Q).
Definition single_point_way : Element :=
  mkElement (Some "way") 2 None (Some [mkNode (Some 5) (Some 3)]%Q).
Definition bare_way : Element :=
  mkElement (Some "way") 3 (Some {[ "building" := "yes" ]}) None.
Definition broken_way : Element :=
  mkElement (Some "way") 4 None
            (Some [mkNode (Some 0) (Some 0); mkNode (Some 1) None]%Q).

(** A polygon built by hand without coordinates. *)
Definition empty_polygon : Polygon := mkPolygon 1 WAY [] ∅ ∅.

(** Collaborators: one that refuses every connection, one that answers
    every request with a way, and one whose [elements] array holds a
    way followed by [null]. *)
Definition dead_net (n : nat) : GetOutcome :=
  Fails (RequestException ConnectionError).
Definition way_net (n : nat) : GetOutcome :=
  Responds (mkResponse 200
              (Some {[ "elements" := JArray [ItemObject open_way] ]})).
Definition null_item_net (n : nat) : GetOutcome :=
  Responds (mkResponse 200
              (Some {[ "elements" := JArray [ItemObject open_way; ItemScalar] ]})).

(** A stand-in for the float formatting, enough to run the queries. *)
Definition show_float (x : Q) : string := "0".

(** The probe request of [is_available]. *)
Definition probe (config : OverpassConfig) : event :=
  EGet (url config) "[bbox:0,0,0.1,0.1];node;out count;" 5.

(** A response is accepted by an attempt of [query]: its status is not a
    4xx or 5xx one and its body decodes to [data]. *)
Definition accepted (o : GetOutcome) (data : Payload) : Prop :=
  exists r, o = Responds r /\
            ~ (400 <= status_code r < 600) /\ body r = Some data.

(** Collaborators: one that answers 201 with an empty object, and one
    that times out once and then breaks with an exception that is not a
    [RequestException]. *)
Definition created_net (n : nat) : GetOutcome :=
  Responds (mkResponse 201 (Some ∅)).
Definition broken_net (n : nat) : GetOutcome :=
  if (n <? 1)%nat then Fails (RequestException Timeout)
  else Fails (OtherException "MemoryError").

(** What marks a polygon of the list returned for a batch: it is the
    parse, as kind [k], of an object of the batch that declares that
    type. *)
Definition parsed_from (k : PolygonType) (items : list Item) (p : Polygon)
  : Prop :=
  exists element,
    In (ItemObject element) items /\
    el_type element = Some (value k) /\
    Repo._parse_element element k = Some p.

(** A closed way under the id of [open_way], and a relation. *)
Definition ring_way : Element :=
  mkElement (Some "way") 1 None
            (Some [mkNode (Some 0) (Some 0); mkNode (Some 0) (Some 2);
                   mkNode (Some 2) (Some 2); mkNode (Some 0) (Some 0)]%Q).
Definition some_relation : Element :=
  mkElement (Some "relation") 9 None (Some [mkNode (Some 0) (Some 0)]%Q).

(** Collaborators answering with a mixed batch, with an object that has no
    [elements], and with a number under [elements]. *)
Definition batch_net (n : nat) : GetOutcome :=
  Responds (mkResponse 200
    (Some {[ "elements" :=
               JArray (ItemObject <$>
                         [open_way; some_relation; bare_way; ring_way]) ]})).
Definition remark_net (n : nat) : GetOutcome :=
  Responds (mkResponse 200 (Some {[ "remark" := JScalar ]})).
Definition scalar_net (n : nat) : GetOutcome :=
  Responds (mkResponse 200 (Some {[ "elements" := JScalar ]})).

(** A polygon with a single coordinate. *)
Definition dot_polygon : Polygon := mkPolygon 5 NODE [(3, 5)%Q] ∅ ∅.

(** A polygon that is not closed (area 0) and a 2 by 3 rectangle. *)
Definition unclosed_polygon : Polygon :=
  mkPolygon 456 RELATION [(0, 0); (1, 0); (1, 1); (0, 1)]%Q
            {[ "landuse" := "industrial" ]} ∅.
Definition rectangle_polygon : Polygon :=
  mkPolygon 2 WAY [(0, 0); (2, 0); (2, 3); (0, 3); (0, 0)]%Q
            {[ "building" := "yes" ]} ∅.

(** The test of [filter_by_area] on one polygon. *)
Definition in_area_range (fa : Float.arith) (min_area : Q)
    (max_area : option Q) (p : Polygon) : bool :=
  Float.ge (Poly.get_area fa p) min_area &&
  match max_area with
  | Some max_area => Float.le (Poly.get_area fa p) max_area
  | None => true
  end.

(** Arithmetic without rounding: what binary64 computes on the small
    integers of the fixtures. *)
Definition exact_arith : Float.arith :=
  Float.mkArith Qplus Qminus Qmult Qdiv (foldl Qplus 0%Q).


(** ** Theorems *)

Lemma Float_le_true a b : Float.le a b = true <-> (a <= b)%Q.
Proof. unfold Float.le. apply Qle_bool_iff. Qed.

Lemma Float_le_false a b : Float.le a b = false <-> (b < a)%Q.
Proof.
  unfold Float.le. split.
  - intros H. apply Qnot_le_lt. intros Hle.
    apply Qle_bool_iff in Hle. congruence.
  - intros H. destruct (Qle_bool a b) eqn:E; [|reflexivity].
    apply Qle_bool_iff in E. exfalso. exact (Qlt_not_le _ _ H E).
Qed.

Lemma Float_between_false lo x hi :
  Float.between lo x hi = false <-> BBox.outside lo hi x.
Proof.
  unfold Float.between, BBox.outside.
  rewrite andb_false_iff, !Float_le_false. tauto.
Qed.

Lemma Float_between_true lo x hi :
  Float.between lo x hi = true <-> (lo <= x)%Q /\ (x <= hi)%Q.
Proof.
  unfold Float.between. rewrite andb_true_iff, !Float_le_true. tauto.
Qed.

(** C7. [BoundingBox.is_valid] answers [False] exactly when one of the six
    conditions holds (min >= max on an axis, or a coordinate outside its
    legal range), and it accepts the box whose four coordinates sit at the
    extremes -90, -180, 90, 180. *)
Theorem C7_is_valid_false_iff :
  (forall b : BoundingBox, BBox.is_valid b = false <-> BBox.rejected b) /\
  BBox.is_valid (mkBoundingBox (-90 # 1) (-180 # 1) (90 # 1) (180 # 1)) = true.
Proof.
  split; [|reflexivity].
  intros b. unfold BBox.is_valid, BBox.rejected, Float.ge.
  fold (Float.le (lat_max b) (lat_min b)).
  fold (Float.le (lon_max b) (lon_min b)).
  rewrite <- !Float_between_false, <- !Float_le_true.
  destruct (Float.le (lat_max b) (lat_min b)); [intuition|].
  destruct (Float.le (lon_max b) (lon_min b)); [intuition|].
  destruct (Float.between _ (lat_min b) _); cbn [negb]; [|tauto].
  destruct (Float.between _ (lat_max b) _); cbn [negb]; [|tauto].
  destruct (Float.between _ (lon_min b) _); cbn [negb]; [|tauto].
  destruct (Float.between _ (lon_max b) _); cbn [negb]; [|tauto].
  intuition congruence.
Qed.

(** *** Equations of the monad *)

Lemma bind_ok {A B} (m : M A) (f : A -> M B) s a s' :
  m s = (Ok a, s') -> (m ≫= f) s = f a s'.
Proof. intros H. unfold mbind, M_bind. rewrite H. reflexivity. Qed.

Lemma bind_raise {A B} (m : M A) (f : A -> M B) s e s' :
  m s = (Raise e, s') -> (m ≫= f) s = (Raise e, s').
Proof. intros H. unfold mbind, M_bind. rewrite H. reflexivity. Qed.

Lemma try_ok {A} (body : M A) filter handler s a s' :
  body s = (Ok a, s') -> try_except body filter handler s = (Ok a, s').
Proof. intros H. unfold try_except. rewrite H. reflexivity. Qed.

Lemma try_caught {A} (body : M A) filter handler s e s' :
  body s = (Raise e, s') -> filter e = true ->
  try_except body filter handler s = handler e s'.
Proof. intros H F. unfold try_except. rewrite H, F. reflexivity. Qed.

Lemma try_uncaught {A} (body : M A) filter handler s e s' :
  body s = (Raise e, s') -> filter e = false ->
  try_except body filter handler s = (Raise e, s').
Proof. intros H F. unfold try_except. rewrite H, F. reflexivity. Qed.

(** *** The retry loop *)

Section QueryFacts.

Variable net : nat -> GetOutcome.
Variable clock : Q -> option exn.
Variable config : OverpassConfig.
Variable overpass_ql : string.

Let get : event := EGet (url config) overpass_ql (timeout config).

(** One attempt up to the decoding of the body, as a computation. *)
Let fetch : M (control Payload) :=
  response ← Lib.requests_get net (url config) overpass_ql (timeout config);
  _ ← lift (Lib.raise_for_status response);
  data ← lift (Lib.json response);
  mret (Return data).

Lemma fetch_outcome s :
  fetch s =
  (Return <$> attempt_outcome (net (calls s)),
   mkState (S (calls s)) (events s ++ [get]) (cache s)).
Proof.
  unfold fetch, attempt_outcome, Lib.requests_get, lift.
  unfold mbind, M_bind, mret, M_ret, fmap, result_fmap.
  destruct (net (calls s)) as [r|e]; [|reflexivity].
  cbn. destruct (Lib.raise_for_status r); [|reflexivity].
  cbn. destruct (Lib.json r); reflexivity.
Qed.

(** The backoff of the handler, from what it raises. *)
Lemma backoff_cases attempt s :
  (wait_time ← lift (Client.wait_time config attempt);
   _ ← Lib.time_sleep clock wait_time;
   mret (Continue : control Payload)) s =
  match refused clock config attempt with
  | Some e => (Raise e, s)
  | None =>
      (Ok Continue,
       mkState (calls s)
               (events s ++
                  [ESleep (retry_delay config * inject_Z (2 ^ attempt))%Q])
               (cache s))
  end.
Proof.
  unfold refused, Client.wait_time, Lib.float_mul_pow2, lift.
  unfold mbind, M_bind, Lib.time_sleep.
  destruct (1024 <=? attempt); [reflexivity|]. cbv zeta.
  destruct (Float.le _ Lib.float_max); [|reflexivity].
  destruct (clock _); reflexivity.
Qed.

Lemma refused_accepted (i : nat) :
  backoff_accepted clock config i <-> refused clock config (Z.of_nat i) = None.
Proof.
  unfold backoff_accepted, refused, Client.wait_time, Lib.float_mul_pow2.
  cbv zeta. destruct (Z.leb_spec 1024 (Z.of_nat i)) as [Hi|Hi].
  - split; [lia|discriminate].
  - destruct (Float.le _ Lib.float_max) eqn:E.
    + apply Float_le_true in E. tauto.
    + apply Float_le_false in E. split; [|discriminate].
      intros (_ & Hle & _). exfalso. exact (Qlt_not_le _ _ E Hle).
Qed.

Lemma attempt_once_ok attempt s data :
  attempt_outcome (net (calls s)) = Ok data ->
  Client.attempt_once net clock config overpass_ql attempt s =
  (Ok (Return data), mkState (S (calls s)) (events s ++ [get]) (cache s)).
Proof.
  intros H. unfold Client.attempt_once. fold fetch.
  eapply try_ok. rewrite fetch_outcome, H. reflexivity.
Qed.

Lemma attempt_once_retry attempt s e :
  attempt_outcome (net (calls s)) = Raise e ->
  is_RequestException e = true ->
  attempt < max_retries config - 1 ->
  refused clock config attempt = None ->
  Client.attempt_once net clock config overpass_ql attempt s =
  (Ok Continue,
   mkState (S (calls s))
           (events s ++
              [get; ESleep (retry_delay config * inject_Z (2 ^ attempt))%Q])
           (cache s)).
Proof.
  intros H He Hlt Hd. unfold Client.attempt_once. fold fetch.
  erewrite try_caught; [| rewrite fetch_outcome, H; reflexivity | exact He].
  apply Z.ltb_lt in Hlt. rewrite Hlt.
  rewrite backoff_cases, Hd. cbn [calls events cache].
  rewrite <- app_assoc. reflexivity.
Qed.

Lemma attempt_once_last attempt s e :
  attempt_outcome (net (calls s)) = Raise e ->
  is_RequestException e = true ->
  max_retries config - 1 <= attempt ->
  Client.attempt_once net clock config overpass_ql attempt s =
  (Raise e, mkState (S (calls s)) (events s ++ [get]) (cache s)).
Proof.
  intros H He Hge. unfold Client.attempt_once. fold fetch.
  erewrite try_caught; [| rewrite fetch_outcome, H; reflexivity | exact He].
  apply Z.ltb_ge in Hge. rewrite Hge. reflexivity.
Qed.

Lemma attempt_once_foreign attempt s e :
  attempt_outcome (net (calls s)) = Raise e ->
  is_RequestException e = false ->
  Client.attempt_once net clock config overpass_ql attempt s =
  (Raise e, mkState (S (calls s)) (events s ++ [get]) (cache s)).
Proof.
  intros H He. unfold Client.attempt_once. fold fetch.
  eapply try_uncaught; [rewrite fetch_outcome, H; reflexivity | exact He].
Qed.

Lemma range_from_cons (a m : nat) :
  Z.of_nat <$> seq a (S m) = Z.of_nat a :: (Z.of_nat <$> seq (S a) m).
Proof. reflexivity. Qed.

Lemma query_loop_cons attempt rest :
  Client.query_loop net clock config overpass_ql (attempt :: rest) =
  (c ← Client.attempt_once net clock config overpass_ql attempt;
   match c with
   | Return data => mret data
   | Continue => Client.query_loop net clock config overpass_ql rest
   end).
Proof. reflexivity. Qed.

(** [k] failures followed by a success, inside the remaining budget. *)
Lemma query_loop_success (k : nat) : forall (a m : nat) s data,
  (k < m)%nat ->
  Z.of_nat (a + m) <= max_retries config ->
  (forall i, (i < k)%nat -> refused clock config (Z.of_nat (a + i)) = None) ->
  (forall i, (i < k)%nat -> exists e,
      attempt_outcome (net (calls s + i)) = Raise e /\
      is_RequestException e = true) ->
  attempt_outcome (net (calls s + k)) = Ok data ->
  Client.query_loop net clock config overpass_ql (Z.of_nat <$> seq a m) s =
  (Ok data,
   mkState (calls s + (k + 1))
           (events s ++ retry_events config overpass_ql a k) (cache s)).
Proof.
  induction k as [|k IH]; intros a m s data Hkm Hbudget Hd Hfail Hok.
  - destruct m as [|m]; [lia|]. rewrite range_from_cons, query_loop_cons.
    rewrite Nat.add_0_r in Hok.
    erewrite bind_ok by (apply attempt_once_ok; exact Hok).
    cbn. rewrite Nat.add_1_r. reflexivity.
  - destruct m as [|m]; [lia|]. rewrite range_from_cons, query_loop_cons.
    destruct (Hfail 0%nat ltac:(lia)) as (e & He & Hreq).
    rewrite Nat.add_0_r in He.
    erewrite bind_ok
      by (apply (attempt_once_retry _ _ e);
          [exact He|exact Hreq|lia|
           rewrite <- (Nat.add_0_r a); apply Hd; lia]).
    cbn beta iota.
    rewrite (IH (S a) m _ data); cbn [calls events cache].
    + f_equal. f_equal; [lia|].
      unfold retry_events. cbn [seq flat_map].
      rewrite <- !app_assoc. reflexivity.
    + lia.
    + lia.
    + intros i Hi. replace (S a + i)%nat with (a + S i)%nat by lia.
      apply Hd. lia.
    + intros i Hi. destruct (Hfail (S i) ltac:(lia)) as (e' & He' & Hreq').
      exists e'. split; [|exact Hreq'].
      replace (S (calls s) + i)%nat with (calls s + S i)%nat by lia.
      exact He'.
    + replace (S (calls s) + k)%nat with (calls s + S k)%nat by lia.
      exact Hok.
Qed.

(** Failures on every attempt of the remaining budget. *)
Lemma query_loop_exhausted (m : nat) : forall (a : nat) s (err : nat -> exn),
  Z.of_nat (a + S m) = max_retries config ->
  (forall i, (i < m)%nat -> refused clock config (Z.of_nat (a + i)) = None) ->
  (forall i, (i <= m)%nat ->
      attempt_outcome (net (calls s + i)) = Raise (err i) /\
      is_RequestException (err i) = true) ->
  Client.query_loop net clock config overpass_ql (Z.of_nat <$> seq a (S m)) s =
  (Raise (err m),
   mkState (calls s + S m)
           (events s ++ retry_events config overpass_ql a m) (cache s)).
Proof.
  induction m as [|m IH]; intros a s err Hbudget Hd Hfail.
  - rewrite range_from_cons, query_loop_cons.
    destruct (Hfail 0%nat ltac:(lia)) as (He & Hreq).
    rewrite Nat.add_0_r in He.
    erewrite bind_raise
      by (apply (attempt_once_last _ _ (err 0%nat)); [exact He|exact Hreq|lia]).
    rewrite Nat.add_1_r. reflexivity.
  - rewrite range_from_cons, query_loop_cons.
    destruct (Hfail 0%nat ltac:(lia)) as (He & Hreq).
    rewrite Nat.add_0_r in He.
    erewrite bind_ok
      by (apply (attempt_once_retry _ _ (err 0%nat));
          [exact He|exact Hreq|lia|
           rewrite <- (Nat.add_0_r a); apply Hd; lia]).
    cbn beta iota.
    rewrite (IH (S a) _ (fun i => err (S i))); cbn [calls events cache].
    + f_equal. f_equal; [lia|].
      unfold retry_events. cbn [seq flat_map].
      rewrite <- !app_assoc. reflexivity.
    + lia.
    + intros i Hi. replace (S a + i)%nat with (a + S i)%nat by lia.
      apply Hd. lia.
    + intros i Hi. destruct (Hfail (S i) ltac:(lia)) as (He' & Hreq').
      split; [|exact Hreq'].
      replace (S (calls s) + i)%nat with (calls s + S i)%nat by lia.
      exact He'.
Qed.

(** Whatever the collaborator does, one attempt makes one call with the
    configured request, sleeps at most once after it, and leaves the cache
    alone. *)
Lemma attempt_once_state attempt s r s' :
  Client.attempt_once net clock config overpass_ql attempt s = (r, s') ->
  calls s' = S (calls s) /\ cache s' = cache s /\
  (events s' = events s ++ [get] \/
   events s' =
     events s ++
       [get; ESleep (retry_delay config * inject_Z (2 ^ attempt))%Q]).
Proof.
  unfold Client.attempt_once. fold fetch. unfold try_except.
  rewrite fetch_outcome.
  destruct (attempt_outcome (net (calls s))) as [d|e]; cbn.
  - intros [= <- <-]. cbn. auto.
  - destruct (is_RequestException e); [|intros [= <- <-]; cbn; auto].
    destruct (attempt <? max_retries config - 1);
      [|intros [= <- <-]; cbn; auto].
    rewrite backoff_cases.
    destruct (refused clock config attempt); intros [= <- <-]; cbn; [auto|].
    rewrite <- app_assoc. auto.
Qed.

Lemma query_loop_state (attempts : list Z) : forall s r s',
  Client.query_loop net clock config overpass_ql attempts s = (r, s') ->
  cache s' = cache s /\
  exists new, events s' = events s ++ new /\ issues_only get new.
Proof.
  induction attempts as [|attempt rest IH]; intros s r s' H.
  - cbn in H. injection H as <- <-. split; [reflexivity|].
    exists []. rewrite app_nil_r. split; [reflexivity|constructor].
  - rewrite query_loop_cons in H. unfold mbind, M_bind in H.
    destruct (Client.attempt_once net clock config overpass_ql attempt s)
      as [c s1] eqn:E.
    apply attempt_once_state in E as (_ & Hcache & Hev).
    assert (Hone : exists new1, events s1 = events s ++ new1 /\
                                issues_only get new1).
    { destruct Hev as [-> | ->]; eexists; (split; [reflexivity|]);
        repeat constructor; discriminate. }
    destruct Hone as (new1 & Hev1 & Hget1).
    assert (Hstop : s' = s1 ->
              cache s' = cache s /\
              exists new, events s' = events s ++ new /\ issues_only get new).
    { intros ->. split; [exact Hcache|]. exists new1. auto. }
    destruct c as [[d|] | e].
    + injection H as _ <-. auto.
    + apply IH in H as (Hc & new & Hev2 & Hget2).
      split; [congruence|]. exists (new1 ++ new).
      rewrite Hev2, Hev1, app_assoc. split; [reflexivity|].
      apply Forall_app. auto.
    + injection H as _ <-. auto.
Qed.

End QueryFacts.

Lemma count_gets_retry_events config overpass_ql (a k : nat) :
  count_gets (retry_events config overpass_ql a k) = (k + 1)%nat.
Proof.
  unfold count_gets, retry_events. revert a.
  induction k as [|k IH]; intros a; [reflexivity|].
  cbn [seq flat_map app List.filter is_get length]. rewrite IH. reflexivity.
Qed.

Lemma sleeps_retry_events config overpass_ql (a k : nat) :
  sleeps (retry_events config overpass_ql a k) =
  (fun i => (retry_delay config * inject_Z (2 ^ Z.of_nat i))%Q) <$> seq a k.
Proof.
  unfold sleeps, retry_events. revert a.
  induction k as [|k IH]; intros a; [reflexivity|].
  cbn [seq flat_map app omap list_omap fmap list_fmap].
  f_equal. apply IH.
Qed.

Lemma last_retry_events config overpass_ql (a k : nat) :
  last (retry_events config overpass_ql a k) =
  Some (EGet (url config) overpass_ql (timeout config)).
Proof. unfold retry_events. apply last_snoc. Qed.

(** C1 fails as stated: with a retry delay of [1e10] seconds, two
    timeouts and then a success inside a budget of three attempts,
    [time.sleep] refuses the first backoff and [query] raises
    [OverflowError] after a single call instead of returning the payload
    of the third. *)
Lemma C1_counterexample_refused_sleep :
  1 <= max_retries slow_config /\
  (forall i, (i < 2)%nat -> exists e,
      attempt_outcome (flaky_net i) = Raise e /\
      is_RequestException e = true) /\
  attempt_outcome (flaky_net 2) = Ok ∅ /\
  Client.query flaky_net cpython_clock slow_config "q" (mkState 0 [] ∅) =
  (Raise OverflowError,
   mkState 1 [EGet "https://overpass-api.de/api/interpreter" "q" 30] ∅).
Proof.
  split; [cbn; lia|]. split; [|split; reflexivity].
  intros i Hi. exists (RequestException Timeout).
  destruct i as [|[|i]]; [split; reflexivity | split; reflexivity | lia].
Qed.

(** C1 (amended). [OverpassClient.query] with [max_retries >= 1], when the
    backoffs it needs go through (each delay [retry_delay * 2^i] is a
    finite float that [time.sleep] accepts): after [k] failed attempts and
    a successful attempt [k+1] inside the budget, it has made exactly
    [k+1] calls of [requests.get], one after the other, separated by
    sleeps of [retry_delay * 2^0], ..., [retry_delay * 2^(k-1)], with no
    sleep after the success, and returns the decoded payload of that
    attempt; when all [max_retries] attempts fail it has made exactly
    [max_retries] calls and raises the failure of the last attempt
    itself. *)
Theorem C1_query_retry_backoff
    (net : nat -> GetOutcome) (clock : Q -> option exn)
    (config : OverpassConfig) (overpass_ql : string) (s : state) :
  1 <= max_retries config ->
  (forall (k : nat) (data : Payload),
      Z.of_nat k < max_retries config ->
      (forall i, (i < k)%nat -> exists e,
          attempt_outcome (net (calls s + i)%nat) = Raise e /\
          is_RequestException e = true) ->
      (forall i, (i < k)%nat -> backoff_accepted clock config i) ->
      attempt_outcome (net (calls s + k)%nat) = Ok data ->
      let new := retry_events config overpass_ql 0 k in
      Client.query net clock config overpass_ql s =
        (Ok data, mkState (calls s + (k + 1))%nat (events s ++ new) (cache s)) /\
      count_gets new = (k + 1)%nat /\
      sleeps new =
        (fun i => (retry_delay config * inject_Z (2 ^ Z.of_nat i))%Q)
          <$> seq 0 k /\
      last new = Some (EGet (url config) overpass_ql (timeout config)))
  /\
  (forall err : nat -> exn,
      (forall i, Z.of_nat i < max_retries config ->
          attempt_outcome (net (calls s + i)%nat) = Raise (err i) /\
          is_RequestException (err i) = true) ->
      (forall i, Z.of_nat i < max_retries config - 1 ->
          backoff_accepted clock config i) ->
      let n := Z.to_nat (max_retries config) in
      let new := retry_events config overpass_ql 0 (n - 1) in
      Client.query net clock config overpass_ql s =
        (Raise (err (n - 1)%nat),
         mkState (calls s + n)%nat (events s ++ new) (cache s)) /\
      count_gets new = n).
Proof.
  intros Hn. split.
  - intros k data Hk Hfail Hsleep Hok new. subst new.
    split; [|split; [|split]].
    + unfold Client.query, range.
      apply query_loop_success; [lia|lia| |exact Hfail|exact Hok].
      intros i Hi. apply refused_accepted, Hsleep, Hi.
    + apply count_gets_retry_events.
    + apply sleeps_retry_events.
    + apply last_retry_events.
  - intros err Hfail Hsleep n new. subst new.
    assert (Hm : n = S (n - 1)) by (subst n; lia).
    split.
    + unfold Client.query, range. fold n.
      rewrite Hm at 1 3.
      apply query_loop_exhausted; [subst n; lia| |].
      * intros i Hi. apply refused_accepted, Hsleep. subst n. cbn. lia.
      * intros i Hi. apply Hfail. subst n. lia.
    + rewrite count_gets_retry_events. lia.
Qed.

Lemma C1_query_retry_backoff_witness :
  Client.query flaky_net cpython_clock DEFAULT_CONFIG "q" (mkState 0 [] ∅) =
  (Ok ∅,
   mkState 3
     [EGet "https://overpass-api.de/api/interpreter" "q" 30; ESleep (1 * 1)%Q;
      EGet "https://overpass-api.de/api/interpreter" "q" 30; ESleep (1 * 2)%Q;
      EGet "https://overpass-api.de/api/interpreter" "q" 30]
     ∅) /\
  Client.query dead_net cpython_clock DEFAULT_CONFIG "q" (mkState 0 [] ∅) =
  (Raise (RequestException ConnectionError),
   mkState 3
     [EGet "https://overpass-api.de/api/interpreter" "q" 30; ESleep (1 * 1)%Q;
      EGet "https://overpass-api.de/api/interpreter" "q" 30; ESleep (1 * 2)%Q;
      EGet "https://overpass-api.de/api/interpreter" "q" 30]
     ∅).
Proof.
  assert (H1 : 1 <= max_retries DEFAULT_CONFIG) by (cbn; lia).
  assert (H2 : forall i, (i < 2)%nat ->
                 backoff_accepted cpython_clock DEFAULT_CONFIG i).
  { intros i Hi. destruct i as [|[|i]]; [| |lia];
      (split; [cbn; lia|split; [vm_compute; discriminate|reflexivity]]). }
  split.
  - pose proof (C1_query_retry_backoff flaky_net cpython_clock DEFAULT_CONFIG
                  "q" (mkState 0 [] ∅) H1) as [Hsucc _].
    refine (proj1 (Hsucc 2%nat ∅ _ _ H2 _)).
    + cbn; lia.
    + intros i Hi. exists (RequestException Timeout).
      destruct i as [|[|i]]; [split; reflexivity | split; reflexivity | lia].
    + reflexivity.
  - pose proof (C1_query_retry_backoff dead_net cpython_clock DEFAULT_CONFIG
                  "q" (mkState 0 [] ∅) H1) as [_ Hexh].
    refine (proj1 (Hexh (fun _ => RequestException ConnectionError) _ _)).
    + intros i _. split; reflexivity.
    + intros i Hi. apply H2. cbn in Hi. lia.
Defined.

(** *** The cache *)

Lemma save_cache (item : Polygon) s :
  Repo.save item s =
  (Ok item, mkState (calls s) (events s) (<[osm_id item := item]> (cache s))).
Proof. reflexivity. Qed.

(** C8. Saving [p1] and then [p2] under the same [osm_id] leaves the cache
    as if [p2] alone had been saved: the id maps to [p2] and the second
    save adds no entry (one entry on an empty cache).  [delete] on an
    absent id answers [False], raises nothing and changes nothing; on a
    present id it removes that entry only and answers [True]. *)
Theorem C8_save_last_write_wins_delete_reports_presence :
  (forall (p1 p2 : Polygon) (s : state),
      osm_id p2 = osm_id p1 ->
      exists s1 s2,
        Repo.save p1 s = (Ok p1, s1) /\
        Repo.save p2 s1 = (Ok p2, s2) /\
        cache s2 !! osm_id p1 = Some p2 /\
        cache s2 = <[osm_id p2 := p2]> (cache s) /\
        size (cache s2) = size (cache s1) /\
        (cache s = ∅ -> size (cache s2) = 1%nat)) /\
  (forall (item_id : Z) (s : state),
      cache s !! item_id = None ->
      Repo.delete item_id s = (Ok false, s)) /\
  (forall (item_id : Z) (s : state) (p : Polygon),
      cache s !! item_id = Some p ->
      exists s',
        Repo.delete item_id s = (Ok true, s') /\
        cache s' !! item_id = None /\
        (forall j, j <> item_id -> cache s' !! j = cache s !! j) /\
        size (cache s) = S (size (cache s'))).
Proof.
  split; [|split].
  - intros p1 p2 s Hid. eexists _, _.
    split; [apply save_cache|]. split; [apply save_cache|].
    cbn [cache]. rewrite Hid.
    split; [apply lookup_insert_eq|].
    split; [apply insert_insert_eq|].
    split.
    + rewrite insert_insert_eq.
      destruct (cache s !! osm_id p1) as [q|] eqn:E.
      * rewrite !map_size_insert_Some; eauto.
      * rewrite !map_size_insert_None by exact E. reflexivity.
    + intros ->. rewrite insert_insert_eq.
      rewrite map_size_insert_None by apply lookup_empty.
      rewrite map_size_empty. reflexivity.
  - intros item_id s H. unfold Repo.delete. rewrite H.
    rewrite bool_decide_eq_false_2; [reflexivity|].
    intros [x Hx]. discriminate.
  - intros item_id s p H. unfold Repo.delete. rewrite H.
    rewrite bool_decide_eq_true_2 by eauto.
    eexists. split; [reflexivity|]. cbn [cache].
    split; [apply lookup_delete_eq|].
    split; [intros j Hj; apply lookup_delete_ne; congruence|].
    rewrite <- (insert_delete_id (cache s) item_id p H) at 1.
    apply map_size_insert_None, lookup_delete_eq.
Qed.

Lemma C8_save_last_write_wins_delete_reports_presence_witness :
  (exists s1 s2,
      Repo.save simple_polygon (mkState 0 [] ∅) = (Ok simple_polygon, s1) /\
      Repo.save triangle_polygon s1 = (Ok triangle_polygon, s2) /\
      cache s2 !! 123 = Some triangle_polygon /\
      size (cache s2) = 1%nat) /\
  Repo.delete 5 (mkState 0 [] ∅) = (Ok false, mkState 0 [] ∅) /\
  (exists s',
      Repo.delete 123 (mkState 0 [] {[ 123 := simple_polygon ]}) = (Ok true, s') /\
      cache s' !! 123 = None).
Proof.
  pose proof C8_save_last_write_wins_delete_reports_presence
    as (Hsave & Habsent & Hpresent).
  split; [|split].
  - destruct (Hsave simple_polygon triangle_polygon (mkState 0 [] ∅) eq_refl)
      as (s1 & s2 & H1 & H2 & H3 & _ & _ & H6).
    exists s1, s2. repeat split; [exact H1|exact H2|exact H3|].
    apply H6. reflexivity.
  - apply Habsent. reflexivity.
  - destruct (Hpresent 123 (mkState 0 [] {[ 123 := simple_polygon ]})
                simple_polygon ltac:(apply lookup_singleton_eq))
      as (s' & H1 & H2 & _).
    exists s'. split; [exact H1|exact H2].
Defined.

(** *** Closing a polygon *)

Lemma close_empty (p : Polygon) :
  coordinates p = [] -> Poly.close p = Raise IndexError.
Proof.
  intros H. unfold Poly.close, Poly.is_closed. rewrite H. reflexivity.
Qed.

Lemma close_nonempty (p : Polygon) :
  coordinates p <> [] -> exists p', Poly.close p = Ok p'.
Proof.
  intros H. unfold Poly.close.
  destruct (Poly.is_closed p); cbn; [eauto|].
  destruct (coordinates p); [congruence|]. cbn. eauto.
Qed.

Lemma project_app (geometry : list Node) : forall acc cs,
  Repo.project geometry acc = Ok cs ->
  exists new, cs = acc ++ new /\ length new = length geometry.
Proof.
  induction geometry as [|n g IH]; intros acc cs H; cbn in H.
  - injection H as <-. exists []. rewrite app_nil_r. split; reflexivity.
  - destruct (node_lon n) as [lon|]; [|discriminate].
    destruct (node_lat n) as [lat|]; [|discriminate]. cbn in H.
    destruct (IH _ _ H) as (new & -> & Hlen).
    exists ((lon, lat) :: new). rewrite <- app_assoc. cbn.
    split; [reflexivity|]. rewrite Hlen. reflexivity.
Qed.

Lemma project_never_index_error (geometry : list Node) : forall acc,
  Repo.project geometry acc <> Raise IndexError.
Proof.
  induction geometry as [|n g IH]; intros acc; cbn; [discriminate|].
  destruct (node_lon n) as [lon|]; [|discriminate].
  destruct (node_lat n) as [lat|]; [|discriminate]. cbn. apply IH.
Qed.

(** What the [try] block of [_parse_element] does once the coordinates
    are built. *)
Lemma parse_element_body_inv element k r :
  Repo.parse_element_body element k = Ok r ->
  exists cs,
    match el_geometry element with
    | Some geometry => Repo.project geometry []
    | None => Ok []
    end = Ok cs /\
    match cs with
    | [] => r = None
    | _ :: _ =>
        let p0 := mkPolygon (el_id element) k cs
                            (default ∅ (el_tags element)) ∅ in
        exists p, r = Some p /\
          (if bool_decide (k = WAY) then Poly.close p0 else Ok p0) = Ok p
    end.
Proof.
  unfold Repo.parse_element_body. intros H.
  destruct (match el_geometry element with
            | Some geometry => Repo.project geometry []
            | None => mret []
            end) as [cs|e] eqn:E; [|discriminate].
  exists cs. split; [exact E|]. cbn in H.
  destruct cs as [|c cs]; [injection H as <-; reflexivity|].
  cbn in H |- *.
  destruct (if bool_decide (k = WAY) then _ else _) as [p|e] eqn:E2;
    [|discriminate].
  cbn in H. injection H as <-. exists p. split; reflexivity.
Qed.

(** C9. [Polygon.close] fails with [IndexError] exactly on an empty
    coordinate list and succeeds otherwise; [_parse_element] answers
    [None] for an element without geometry or with an empty one, its
    [try] block never raises [IndexError], and every polygon it produces
    has at least one coordinate. *)
Theorem C9_close_guarded_by_parser :
  (forall p : Polygon, coordinates p = [] -> Poly.close p = Raise IndexError) /\
  (forall p : Polygon, coordinates p <> [] -> exists p', Poly.close p = Ok p') /\
  (forall (element : Element) (k : PolygonType),
      el_geometry element = None \/ el_geometry element = Some [] ->
      Repo._parse_element element k = None) /\
  (forall (element : Element) (k : PolygonType),
      Repo.parse_element_body element k <> Raise IndexError) /\
  (forall (element : Element) (k : PolygonType) (p : Polygon),
      Repo._parse_element element k = Some p -> coordinates p <> []).
Proof.
  split; [exact close_empty|]. split; [exact close_nonempty|].
  split; [|split].
  - intros element k [H|H];
      unfold Repo._parse_element, Repo.parse_element_body;
      rewrite H; reflexivity.
  - intros element k. unfold Repo.parse_element_body.
    destruct (el_geometry element) as [g|]; cbn.
    + pose proof (project_never_index_error g []) as Hp.
      destruct (Repo.project g []) as [cs|e]; cbn; [|congruence].
      destruct cs as [|c cs]; [discriminate|].
      destruct (bool_decide (k = WAY)); cbn; [|discriminate].
      unfold Poly.close. destruct (negb _); cbn; discriminate.
    + discriminate.
  - intros element k p H. unfold Repo._parse_element in H.
    destruct (Repo.parse_element_body element k) as [r|e] eqn:E;
      [subst r|discriminate].
    apply parse_element_body_inv in E as (cs & _ & Hcs).
    destruct cs as [|c cs]; [discriminate|].
    destruct Hcs as (p' & [= <-] & Hclose).
    destruct (bool_decide (k = WAY)).
    + unfold Poly.close in Hclose. destruct (negb _); cbn in Hclose;
        injection Hclose as <-; cbn; [|discriminate].
      destruct cs; discriminate.
    + injection Hclose as <-. discriminate.
Qed.

Lemma C9_close_guarded_by_parser_witness :
  Poly.close empty_polygon = Raise IndexError /\
  (exists p', Poly.close simple_polygon = Ok p') /\
  Repo._parse_element bare_way WAY = None /\
  coordinates (mkPolygon 2 WAY [(3, 5); (3, 5)]%Q ∅ ∅) <> [].
Proof.
  pose proof C9_close_guarded_by_parser as (H1 & H2 & H3 & _ & H5).
  split; [|split; [|split]].
  - apply H1. reflexivity.
  - apply H2. discriminate.
  - apply H3. left. reflexivity.
  - apply (H5 single_point_way WAY). reflexivity.
Defined.

Lemma point_eqb_refl (c : point) : point_eqb c c = true.
Proof.
  unfold point_eqb, Float.eq. apply andb_true_iff.
  split; apply Qeq_bool_iff; reflexivity.
Qed.

Lemma first_eq_last_snoc (c : point) (cs : list point) :
  Poly.first_eq_last ((c :: cs) ++ [c]) = true.
Proof.
  unfold Poly.first_eq_last. rewrite last_snoc. cbn. apply point_eqb_refl.
Qed.

Lemma is_closed_first_eq_last (p : Polygon) :
  Poly.is_closed p = true -> Poly.first_eq_last (coordinates p) = true.
Proof.
  unfold Poly.is_closed. destruct (_ <? 3); [discriminate|]. trivial.
Qed.

Lemma close_closed (p : Polygon) :
  Poly.is_closed p = true -> Poly.close p = Ok p.
Proof. intros H. unfold Poly.close. rewrite H. reflexivity. Qed.

(** The polygon [_parse_element] returns for a way, from the coordinates
    it built. *)
Lemma parse_way_inv (element : Element) (p : Polygon) :
  Repo._parse_element element WAY = Some p ->
  exists c cs,
    (exists g, el_geometry element = Some g /\
               length (c :: cs) = length g) /\
    let p0 := mkPolygon (el_id element) WAY (c :: cs)
                        (default ∅ (el_tags element)) ∅ in
    p = if Poly.is_closed p0 then p0 else Poly.append p0 c.
Proof.
  intros H. unfold Repo._parse_element in H.
  destruct (Repo.parse_element_body element WAY) as [r|e] eqn:E;
    [subst r|discriminate].
  apply parse_element_body_inv in E as (cs & Hproj & Hcs).
  destruct cs as [|c cs]; [discriminate|].
  destruct Hcs as (p' & [= <-] & Hclose).
  exists c, cs. split.
  - destruct (el_geometry element) as [g|]; [|discriminate].
    exists g. split; [reflexivity|].
    apply project_app in Hproj as (new & Hnew & Hlen).
    cbn in Hnew. subst new. exact Hlen.
  - rewrite bool_decide_eq_true_2 in Hclose by reflexivity.
    cbn zeta. unfold Poly.close in Hclose.
    destruct (Poly.is_closed _); cbn in Hclose;
      unfold mret, result_ret in Hclose; congruence.
Qed.

(** C4 (amended). The polygon parsed from a way element has equal first
    and last coordinates, and when the element's geometry has at least two
    points a second [close()] returns it unchanged, so the length of its
    coordinates stays the same. *)
Theorem C4_parsed_way_is_closed_and_stays_closed
    (element : Element) (p : Polygon) :
  Repo._parse_element element WAY = Some p ->
  Poly.first_eq_last (coordinates p) = true /\
  (forall g, el_geometry element = Some g -> (2 <= length g)%nat ->
     Poly.close p = Ok p /\ second_close_keeps_length element).
Proof.
  intros H.
  destruct (parse_way_inv _ _ H) as (c & cs & (g & Hg & Hlen) & Hp).
  cbn zeta in Hp.
  set (p0 := mkPolygon (el_id element) WAY (c :: cs)
                       (default ∅ (el_tags element)) ∅) in *.
  assert (Hfirst : Poly.first_eq_last (coordinates p) = true).
  { destruct (Poly.is_closed p0) eqn:E; subst p.
    - apply is_closed_first_eq_last, E.
    - apply first_eq_last_snoc. }
  assert (Hclosed : forall g', el_geometry element = Some g' ->
            (2 <= length g')%nat -> Poly.close p = Ok p).
  { intros g' Hg' Hlen'. rewrite Hg in Hg'. injection Hg' as <-.
    apply close_closed.
    destruct (Poly.is_closed p0) eqn:E; subst p; [exact E|].
    unfold Poly.is_closed. cbn [coordinates Poly.append p0].
    rewrite first_eq_last_snoc.
    rewrite length_app. cbn [length] in *.
    destruct (_ <? 3) eqn:E3; [apply Z.ltb_lt in E3; lia|reflexivity]. }
  split; [exact Hfirst|].
  intros g' Hg' Hlen'. split; [eauto|].
  intros q q' Hq Hq'. rewrite H in Hq. injection Hq as <-.
  rewrite (Hclosed g' Hg' Hlen') in Hq'. injection Hq' as <-. reflexivity.
Qed.

Lemma C4_parsed_way_is_closed_and_stays_closed_witness :
  Poly.first_eq_last [(0, 0); (1, 0); (1, 1); (0, 0)]%Q = true /\
  second_close_keeps_length open_way.
Proof.
  pose proof (C4_parsed_way_is_closed_and_stays_closed open_way
                (mkPolygon 1 WAY [(0, 0); (1, 0); (1, 1); (0, 0)]%Q
                           {[ "building" := "yes" ]} ∅)
                eq_refl) as [H1 H2].
  split; [exact H1|].
  refine (proj2 (H2 _ eq_refl _)). cbn. lia.
Defined.

(** Idempotence of [close] does not extend to a way with one point: the
    parser's close gives two coordinates, a second close gives three. *)
Lemma C4_counterexample_single_point :
  ~ second_close_keeps_length single_point_way.
Proof.
  intros H.
  specialize (H (mkPolygon 2 WAY [(3, 5); (3, 5)]%Q ∅ ∅)
                (mkPolygon 2 WAY [(3, 5); (3, 5); (3, 5)]%Q ∅ ∅)
                eq_refl eq_refl).
  discriminate H.
Qed.

(** *** Parsing of elements and batches *)

Lemma project_geometry_of (pts : list (Q * Q)) : forall acc,
  Repo.project (geometry_of pts) acc = Ok (acc ++ lon_lat pts).
Proof.
  induction pts as [|ll pts IH]; intros acc; cbn.
  - rewrite app_nil_r. reflexivity.
  - unfold geometry_of, lon_lat in IH. rewrite IH, <- app_assoc. reflexivity.
Qed.

Lemma parse_loop_object k element rest polygons s :
  Repo.parse_loop k (ItemObject element :: rest) polygons s =
  if bool_decide (el_type element = Some (value k)) then
    match Repo._parse_element element k with
    | Some polygon =>
        Repo.parse_loop k rest (polygons ++ [polygon])
          (mkState (calls s) (events s)
                   (<[osm_id polygon := polygon]> (cache s)))
    | None => Repo.parse_loop k rest polygons s
    end
  else Repo.parse_loop k rest polygons s.
Proof.
  cbn [Repo.parse_loop].
  destruct (bool_decide _); [|reflexivity].
  destruct (Repo._parse_element element k); reflexivity.
Qed.

(** An element that yields no polygon leaves the rest of the batch as it
    would be without it. *)
Lemma parse_loop_skip k element (before after : list Item) :
  Repo._parse_element element k = None ->
  forall polygons s,
    Repo.parse_loop k (before ++ ItemObject element :: after) polygons s =
    Repo.parse_loop k (before ++ after) polygons s.
Proof.
  intros Hnone. induction before as [|it before IH]; intros polygons s.
  - cbn [app]. rewrite parse_loop_object, Hnone.
    destruct (bool_decide _); reflexivity.
  - destruct it as [e|]; [|reflexivity].
    cbn [app]. rewrite !parse_loop_object.
    destruct (bool_decide _); [|apply IH].
    destruct (Repo._parse_element e k); apply IH.
Qed.

(** A batch of JSON objects is processed to its end: the result lists, in
    order, the polygons of the elements that parse, each saved. *)
Lemma parse_loop_objects k (elements : list Element) : forall polygons s,
  Repo.parse_loop k (ItemObject <$> elements) polygons s =
  (Ok (polygons ++ parsed k elements),
   mkState (calls s) (events s) (saved (parsed k elements) (cache s))).
Proof.
  induction elements as [|e es IH]; intros polygons s.
  - cbn. rewrite app_nil_r. destruct s; reflexivity.
  - rewrite fmap_cons, parse_loop_object. unfold parsed. cbn [omap list_omap].
    fold (parsed k es).
    destruct (bool_decide _).
    + destruct (Repo._parse_element e k) as [p|]; rewrite IH; cbn.
      * rewrite <- app_assoc. reflexivity.
      * reflexivity.
    + rewrite IH. reflexivity.
Qed.

(** C6 (amended). For an element whose geometry has at least one point,
    each point carrying [lat] and [lon], the parser produces a polygon
    whose coordinates are the input points in [[lon, lat]] order, in input
    order, followed, for the kind way when that sequence is not already
    closed, by a copy of its first point; nothing is added for the other
    kinds.  An element with no geometry or an empty one yields no polygon,
    and an element that yields no polygon changes nothing in the
    processing of the other elements of its batch. *)
Theorem C6_parse_projects_lon_lat :
  (forall (element : Element) (k : PolygonType) (pts : list (Q * Q)),
      el_geometry element = Some (geometry_of pts) ->
      pts <> [] ->
      let p0 := mkPolygon (el_id element) k (lon_lat pts)
                          (default ∅ (el_tags element)) ∅ in
      exists p,
        Repo._parse_element element k = Some p /\
        coordinates p =
          lon_lat pts ++
          (if bool_decide (k = WAY) && negb (Poly.is_closed p0)
           then take 1 (lon_lat pts) else []) /\
        (k <> WAY -> coordinates p = lon_lat pts)) /\
  (forall (element : Element) (k : PolygonType),
      el_geometry element = None \/ el_geometry element = Some [] ->
      Repo._parse_element element k = None) /\
  (forall (k : PolygonType) (element : Element) (before after : list Item)
          (polygons : list Polygon) (s : state),
      Repo._parse_element element k = None ->
      Repo.parse_loop k (before ++ ItemObject element :: after) polygons s =
      Repo.parse_loop k (before ++ after) polygons s) /\
  (forall (k : PolygonType) (elements : list Element) (s : state),
      Repo.parse_loop k (ItemObject <$> elements) [] s =
      (Ok (parsed k elements),
       mkState (calls s) (events s) (saved (parsed k elements) (cache s)))).
Proof.
  split; [|split; [|split]].
  - intros element k pts Hg Hpts p0.
    unfold Repo._parse_element, Repo.parse_element_body.
    rewrite Hg, project_geometry_of. cbn [app].
    destruct (lon_lat pts) as [|c cs] eqn:E.
    { destruct pts; [congruence|discriminate]. }
    cbn. fold p0.
    destruct (bool_decide (k = WAY)) eqn:Ek; cbn.
    + unfold Poly.close. destruct (Poly.is_closed p0) eqn:Ec; cbn.
      * eexists. split; [reflexivity|]. cbn. rewrite app_nil_r.
        split; [reflexivity|]. intros _. reflexivity.
      * eexists. split; [reflexivity|]. cbn.
        split; [reflexivity|]. intros Hk.
        apply bool_decide_eq_true in Ek. contradiction.
    + eexists. split; [reflexivity|]. cbn. rewrite app_nil_r.
      split; [reflexivity|]. intros _. reflexivity.
  - intros element k [H|H];
      unfold Repo._parse_element, Repo.parse_element_body;
      rewrite H; reflexivity.
  - intros k element before after polygons s H.
    apply parse_loop_skip, H.
  - intros k elements s. apply (parse_loop_objects k elements [] s).
Qed.

Lemma C6_parse_projects_lon_lat_witness :
  (exists p, Repo._parse_element open_way WAY = Some p /\
             coordinates p = [(0, 0); (1, 0); (1, 1); (0, 0)]%Q) /\
  (exists p, Repo._parse_element open_way RELATION = Some p /\
             coordinates p = [(0, 0); (1, 0); (1, 1)]%Q) /\
  Repo._parse_element bare_way WAY = None /\
  Repo.parse_loop WAY [ItemObject broken_way; ItemObject open_way] []
                  (mkState 0 [] ∅) =
  Repo.parse_loop WAY [ItemObject open_way] [] (mkState 0 [] ∅).
Proof.
  pose proof C6_parse_projects_lon_lat as (H1 & H2 & H3 & _).
  split; [|split; [|split]].
  - destruct (H1 open_way WAY [(0, 0); (0, 1); (1, 1)]%Q eq_refl
                 ltac:(discriminate)) as (p & Hp & Hc & _).
    exists p. split; [exact Hp|exact Hc].
  - destruct (H1 open_way RELATION [(0, 0); (0, 1); (1, 1)]%Q eq_refl
                 ltac:(discriminate)) as (p & Hp & _ & Hc).
    exists p. split; [exact Hp|]. apply Hc. discriminate.
  - apply H2. left. reflexivity.
  - apply (H3 WAY broken_way [] [ItemObject open_way]). reflexivity.
Defined.

(** On a way whose geometry is not closed the polygon carries one
    coordinate more than the projected input. *)
Lemma C6_counterexample_open_way :
  el_geometry open_way = Some (geometry_of [(0, 0); (0, 1); (1, 1)]%Q) /\
  ~ (exists p, Repo._parse_element open_way WAY = Some p /\
               coordinates p = lon_lat [(0, 0); (0, 1); (1, 1)]%Q).
Proof.
  split; [reflexivity|].
  intros (p & Hp & Hc).
  assert (Hparse : Repo._parse_element open_way WAY =
            Some (mkPolygon 1 WAY [(0, 0); (1, 0); (1, 1); (0, 0)]%Q
                            {[ "building" := "yes" ]} ∅)) by reflexivity.
  rewrite Hparse in Hp. injection Hp as <-. discriminate Hc.
Qed.

(** *** GeoJSON export *)

Lemma lookup_update {V} (d other : gmap string V) (key : string) :
  Poly.update d other !! key =
  match other !! key with Some v => Some v | None => d !! key end.
Proof.
  unfold Poly.update. rewrite lookup_union.
  destruct (other !! key), (d !! key); reflexivity.
Qed.

Lemma feature_props_lookup (p : Polygon) (key : string) :
  Poly.feature_props p !! key =
  match properties p !! key with
  | Some v => Some v
  | None =>
      match tags p !! key with
      | Some t => Some (PyStr t)
      | None =>
          if decide (key = "type")
          then Some (PyStr (value (polygon_type p)))
          else if decide (key = "osm_id")
               then Some (PyInt (osm_id p))
               else None
      end
  end.
Proof.
  unfold Poly.feature_props. cbv zeta.
  rewrite !lookup_update, lookup_fmap.
  destruct (properties p !! key); [reflexivity|].
  destruct (tags p !! key); cbn; [reflexivity|].
  rewrite lookup_insert. destruct (decide ("type" = key)) as [<-|Hne].
  - rewrite decide_True by reflexivity. reflexivity.
  - rewrite decide_False by congruence.
    rewrite lookup_insert. destruct (decide ("osm_id" = key)) as [<-|Hne'].
    + rewrite decide_True by reflexivity. reflexivity.
    + rewrite decide_False by congruence. apply lookup_empty.
Qed.

(** C5 (amended). The properties of a polygon's GeoJSON feature are the
    computed entries [osm_id] and [type] (the kind in lower case),
    overridden by the polygon's tags, overridden in turn by its
    properties: on every key the last of the three that has it wins, so a
    tag named [type] or [osm_id] replaces the computed entry and a caller
    property replaces both.  [convert_to_geojson] builds one such feature
    per polygon, in order. *)
Theorem C5_feature_properties_later_keys_win :
  (forall (p : Polygon) (key : string),
      feature_properties (Poly.to_geojson_feature p) !! key =
      match properties p !! key with
      | Some v => Some v
      | None =>
          match tags p !! key with
          | Some t => Some (PyStr t)
          | None =>
              if decide (key = "type")
              then Some (PyStr (value (polygon_type p)))
              else if decide (key = "osm_id")
                   then Some (PyInt (osm_id p))
                   else None
          end
      end) /\
  (forall polygons : list Polygon,
      features (convert_to_geojson polygons) =
      Poly.to_geojson_feature <$> polygons).
Proof.
  split; [|reflexivity].
  intros p key. apply feature_props_lookup.
Qed.

(** On a polygon tagged [type=multipolygon] the feature's [type] is the
    tag, not the kind: the computed entry is replaced. *)
Lemma C5_counterexample_type_tag :
  feature_properties (Poly.to_geojson_feature tagged_polygon) !! "type"
    = Some (PyStr "multipolygon") /\
  ~ computed_entries_kept tagged_polygon.
Proof.
  assert (H : feature_properties (Poly.to_geojson_feature tagged_polygon)
                !! "type" = Some (PyStr "multipolygon")).
  { cbn [Poly.to_geojson_feature feature_properties].
    rewrite feature_props_lookup. reflexivity. }
  split; [exact H|].
  intros [Htype _]. specialize (Htype eq_refl).
  rewrite H in Htype. discriminate Htype.
Qed.

(** *** Area *)









(** *** Repository queries *)

Lemma string_app_assoc (a b c : string) :
  (a +:+ b) +:+ c = a +:+ (b +:+ c).
Proof.
  induction a as [|ch a IH]; [reflexivity|].
  change (String ch ((a +:+ b) +:+ c) = String ch (a +:+ (b +:+ c))).
  rewrite IH. reflexivity.
Qed.

Lemma find_relations_invalid net clock config str bbox tags s :
  BBox.is_valid bbox = false ->
  Repo.find_relations net clock config str bbox tags s =
  (Raise (Repo.invalid_bbox str bbox), s).
Proof. intros H. unfold Repo.find_relations. rewrite H. reflexivity. Qed.

Lemma find_ways_invalid net clock config str bbox tags s :
  BBox.is_valid bbox = false ->
  Repo.find_ways net clock config str bbox tags s =
  (Raise (Repo.invalid_bbox str bbox), s).
Proof. intros H. unfold Repo.find_ways. rewrite H. reflexivity. Qed.

(** [find_relations] has no handler of its own: an exception of the query
    reaches the caller. *)
Lemma find_relations_propagates net clock config str bbox tags s e s' :
  BBox.is_valid bbox = true ->
  Client.query net clock config
    (Repo.relation_query str bbox
       (default [("boundary", "administrative")] tags)) s = (Raise e, s') ->
  Repo.find_relations net clock config str bbox tags s = (Raise e, s').
Proof.
  intros Hv H. unfold Repo.find_relations. rewrite Hv. cbn [negb].
  apply bind_raise, H.
Qed.

(** C2. On a valid bounding box [find_relations] returns the empty list
    whatever payload the query returns, non-empty [elements] included,
    and leaves the cache alone; every request it sends carries the
    relation query, whose output statement is [out count;]. On an invalid
    bounding box it raises the [ValueError] of the invalid box, before
    anything else happens. *)
Theorem C2_find_relations_returns_empty
    (net : nat -> GetOutcome) (clock : Q -> option exn)
    (config : OverpassConfig) (str : Q -> string)
    (bbox : BoundingBox) (tags : option (list (string * string)))
    (s : state) :
  let q := Repo.relation_query str bbox
             (default [("boundary", "administrative")] tags) in
  (BBox.is_valid bbox = true ->
     (forall (data : Payload) (s' : state),
         Client.query net clock config q s = (Ok data, s') ->
         Repo.find_relations net clock config str bbox tags s = (Ok [], s')) /\
     (forall r s',
         Repo.find_relations net clock config str bbox tags s = (r, s') ->
         cache s' = cache s /\
         exists new, events s' = events s ++ new /\
           issues_only (EGet (url config) q (timeout config)) new)) /\
  (exists statements, q = statements +:+ "out count;" +:+ newline) /\
  (BBox.is_valid bbox = false ->
     Repo.find_relations net clock config str bbox tags s =
     (Raise (Repo.invalid_bbox str bbox), s)).
Proof.
  intros q. split; [|split].
  - intros Hv. unfold Repo.find_relations. rewrite Hv. cbn [negb]. fold q.
    split.
    + intros data s' Hq. erewrite bind_ok by exact Hq. reflexivity.
    + intros r s' H. unfold mbind, M_bind in H.
      destruct (Client.query net clock config q s) as [[d|e] s1] eqn:E;
        injection H as _ <-; exact (query_loop_state _ _ _ _ _ _ _ _ E).
  - subst q. unfold Repo.relation_query.
    eexists. rewrite <- !string_app_assoc. reflexivity.
  - apply find_relations_invalid.
Qed.

Lemma C2_find_relations_returns_empty_witness :
  (exists s',
      Repo.find_relations way_net cpython_clock DEFAULT_CONFIG show_float valid_bbox None
                          (mkState 0 [] ∅) = (Ok [], s') /\
      cache s' = ∅) /\
  (exists msg,
      Repo.find_relations way_net cpython_clock DEFAULT_CONFIG show_float
                          invalid_bbox_reversed None (mkState 0 [] ∅) =
      (Raise (ValueError msg), mkState 0 [] ∅)).
Proof.
  pose proof (C2_find_relations_returns_empty way_net cpython_clock DEFAULT_CONFIG
                show_float valid_bbox None (mkState 0 [] ∅))
    as (Hvalid & _ & _).
  pose proof (C2_find_relations_returns_empty way_net cpython_clock DEFAULT_CONFIG
                show_float invalid_bbox_reversed None (mkState 0 [] ∅))
    as (_ & _ & Hinvalid).
  split.
  - destruct (Hvalid eq_refl) as [Hempty Hstate].
    eexists. split.
    + eapply Hempty. reflexivity.
    + reflexivity.
  - eexists. apply Hinvalid. reflexivity.
Defined.

Lemma query_and_parse_total net clock config query k s :
  exists l s', Repo._query_and_parse net clock config query k s = (Ok l, s').
Proof.
  unfold Repo._query_and_parse, try_except, any_Exception.
  destruct (Repo.query_and_parse_body net clock config query k s) as [[l|e] s'];
    eauto.
Qed.

Lemma query_and_parse_raise net clock config query k s e s' :
  Repo.query_and_parse_body net clock config query k s = (Raise e, s') ->
  Repo._query_and_parse net clock config query k s = (Ok [], s').
Proof.
  intros H. unfold Repo._query_and_parse.
  erewrite try_caught; [reflexivity|exact H|reflexivity].
Qed.

(** C3. On an invalid bounding box [find_ways] raises the [ValueError] of
    the invalid box with the state untouched, so before any network call.
    On a valid one it never raises: when the query raises, whatever the
    exception (the failure kept after the last retry included), and when
    anything else in the [try] block raises, it returns the empty list. *)
Theorem C3_find_ways_raises_only_on_invalid_bbox
    (net : nat -> GetOutcome) (clock : Q -> option exn)
    (config : OverpassConfig) (str : Q -> string)
    (bbox : BoundingBox) (tags : option (list (string * string)))
    (s : state) :
  let q := Repo.way_query str bbox (default [("building", "yes")] tags) in
  (BBox.is_valid bbox = false ->
     Repo.find_ways net clock config str bbox tags s =
     (Raise (Repo.invalid_bbox str bbox), s)) /\
  (BBox.is_valid bbox = true ->
     (forall e s',
         Client.query net clock config q s = (Raise e, s') ->
         Repo.find_ways net clock config str bbox tags s = (Ok [], s')) /\
     (forall e s',
         Repo.query_and_parse_body net clock config q WAY s = (Raise e, s') ->
         Repo.find_ways net clock config str bbox tags s = (Ok [], s')) /\
     (exists l s',
         Repo.find_ways net clock config str bbox tags s = (Ok l, s'))).
Proof.
  intros q. split; [apply find_ways_invalid|].
  intros Hv. unfold Repo.find_ways. rewrite Hv. cbn [negb]. fold q.
  split; [|split].
  - intros e s' H. apply (query_and_parse_raise _ _ _ _ _ _ e).
    unfold Repo.query_and_parse_body. apply bind_raise, H.
  - intros e s' H. apply (query_and_parse_raise _ _ _ _ _ _ e), H.
  - apply query_and_parse_total.
Qed.

Lemma C3_find_ways_raises_only_on_invalid_bbox_witness :
  (exists msg,
      Repo.find_ways dead_net cpython_clock DEFAULT_CONFIG show_float
                     invalid_bbox_reversed None (mkState 0 [] ∅) =
      (Raise (ValueError msg), mkState 0 [] ∅)) /\
  (exists s',
      Repo.find_ways dead_net cpython_clock DEFAULT_CONFIG show_float valid_bbox None
                     (mkState 0 [] ∅) = (Ok [], s') /\
      calls s' = 3%nat) /\
  (exists s',
      Repo.find_ways null_item_net cpython_clock DEFAULT_CONFIG show_float valid_bbox None
                     (mkState 0 [] ∅) = (Ok [], s') /\
      size (cache s') = 1%nat).
Proof.
  split; [|split].
  - eexists.
    apply (C3_find_ways_raises_only_on_invalid_bbox dead_net cpython_clock DEFAULT_CONFIG
             show_float invalid_bbox_reversed None (mkState 0 [] ∅)).
    reflexivity.
  - destruct (C3_find_ways_raises_only_on_invalid_bbox dead_net cpython_clock DEFAULT_CONFIG
                show_float valid_bbox None (mkState 0 [] ∅))
      as [_ Hvalid].
    destruct (Hvalid eq_refl) as (Hquery & _ & _).
    eexists. split; [eapply Hquery; reflexivity|reflexivity].
  - destruct (C3_find_ways_raises_only_on_invalid_bbox null_item_net cpython_clock
                DEFAULT_CONFIG show_float valid_bbox None (mkState 0 [] ∅))
      as [_ Hvalid].
    destruct (Hvalid eq_refl) as (_ & Hbody & _).
    eexists. split; [eapply Hbody; reflexivity|reflexivity].
Defined.

(** ** Further properties of the client *)

Section ClientFacts.

Variable net : nat -> GetOutcome.
Variable clock : Q -> option exn.
Variable config : OverpassConfig.
Variable overpass_ql : string.

Let get : event := EGet (url config) overpass_ql (timeout config).

(** One attempt, case by case. *)
Lemma attempt_once_cases attempt s :
  Client.attempt_once net clock config overpass_ql attempt s =
  let s1 := mkState (S (calls s)) (events s ++ [get]) (cache s) in
  match attempt_outcome (net (calls s)) with
  | Ok data => (Ok (Return data), s1)
  | Raise e =>
      if is_RequestException e && (attempt <? max_retries config - 1) then
        match refused clock config attempt with
        | Some e' => (Raise e', s1)
        | None =>
            (Ok Continue,
             mkState (S (calls s))
                     (events s ++
                        [get; ESleep (retry_delay config
                                      * inject_Z (2 ^ attempt))%Q])
                     (cache s))
        end
      else (Raise e, s1)
  end.
Proof.
  cbv zeta. unfold Client.attempt_once.
  match goal with
  | |- try_except ?b _ _ _ = _ => set (body := b)
  end.
  assert (Hbody : body s =
            (Return <$> attempt_outcome (net (calls s)),
             mkState (S (calls s)) (events s ++ [get]) (cache s))).
  { subst body. apply fetch_outcome. }
  destruct (attempt_outcome (net (calls s))) as [d|e]; cbn in Hbody.
  - eapply try_ok, Hbody.
  - destruct (is_RequestException e) eqn:Ereq; cbn [andb].
    + erewrite try_caught; [|exact Hbody|exact Ereq].
      destruct (attempt <? max_retries config - 1); [|reflexivity].
      rewrite backoff_cases.
      destruct (refused clock config attempt); [reflexivity|].
      cbn [calls events cache]. rewrite <- app_assoc. reflexivity.
    + eapply try_uncaught; [exact Hbody|exact Ereq].
Qed.

(** Every run of the loop over a non-empty remaining budget: [j] failed
    attempts that were retried, then one attempt that ended the loop. *)
Lemma query_loop_run (m : nat) : forall (a : nat) s r s',
  Z.of_nat (a + S m) = max_retries config ->
  Client.query_loop net clock config overpass_ql (Z.of_nat <$> seq a (S m)) s =
    (r, s') ->
  exists j : nat,
    (j <= m)%nat /\
    s' = mkState (calls s + S j)
                 (events s ++ retry_events config overpass_ql a j) (cache s) /\
    (forall i, (i < j)%nat -> exists e,
        attempt_outcome (net (calls s + i)) = Raise e /\
        is_RequestException e = true) /\
    match r with
    | Ok data => attempt_outcome (net (calls s + j)) = Ok data
    | Raise e =>
        (attempt_outcome (net (calls s + j)) = Raise e /\
         (is_RequestException e = false \/ j = m)) \/
        (refused clock config (Z.of_nat (a + j)) = Some e /\
         (j < m)%nat /\
         exists e', attempt_outcome (net (calls s + j)) = Raise e' /\
                    is_RequestException e' = true)
    end.
Proof.
  induction m as [|m IH]; intros a s r s' Hbudget H;
    rewrite range_from_cons, query_loop_cons in H;
    unfold mbind, M_bind in H; rewrite attempt_once_cases in H;
    cbv zeta in H.
  - destruct (attempt_outcome (net (calls s))) as [d|e] eqn:E.
    + injection H as <- <-. exists 0%nat.
      rewrite !Nat.add_0_r, Nat.add_1_r.
      repeat split; [lia| |exact E]. intros i Hi. lia.
    + replace (Z.of_nat a <? max_retries config - 1) with false in H
        by (symmetry; apply Z.ltb_ge; lia).
      rewrite andb_false_r in H. injection H as <- <-. exists 0%nat.
      rewrite !Nat.add_0_r, Nat.add_1_r.
      repeat split; [lia| |left; split; [exact E|right; reflexivity]].
      intros i Hi. lia.
  - destruct (attempt_outcome (net (calls s))) as [d|e] eqn:E.
    + injection H as <- <-. exists 0%nat.
      rewrite !Nat.add_0_r, Nat.add_1_r.
      repeat split; [lia| |exact E]. intros i Hi. lia.
    + replace (Z.of_nat a <? max_retries config - 1) with true in H
        by (symmetry; apply Z.ltb_lt; lia).
      rewrite andb_true_r in H.
      destruct (is_RequestException e) eqn:Ereq.
      * destruct (refused clock config (Z.of_nat a)) as [e0|] eqn:Ew.
        { injection H as <- <-. exists 0%nat.
          rewrite !Nat.add_0_r, Nat.add_1_r.
          split; [lia|]. split; [reflexivity|]. split; [intros i Hi; lia|].
          right. split; [exact Ew|]. split; [lia|]. exists e. auto. }
        apply IH in H; [|lia].
        destruct H as (j & Hj & -> & Hfail & Hr). cbn [calls events cache] in *.
        exists (S j). split; [lia|]. split; [|split].
        -- f_equal; [lia|]. unfold retry_events. cbn [seq flat_map].
           rewrite <- !app_assoc. reflexivity.
        -- intros i Hi. destruct i as [|i].
           ++ exists e. rewrite Nat.add_0_r. auto.
           ++ destruct (Hfail i ltac:(lia)) as (e' & He' & Hreq').
              exists e'. split; [|exact Hreq'].
              replace (calls s + S i)%nat with (S (calls s) + i)%nat by lia.
              exact He'.
        -- replace (calls s + S j)%nat with (S (calls s) + j)%nat by lia.
           replace (a + S j)%nat with (S a + j)%nat by lia.
           destruct r as [d|e']; [exact Hr|].
           destruct Hr as [[Ho [Hf|Hm]]|(Hs & Hlt & Hlast)];
             [left|left|right]; auto.
           split; [exact Hs|]. split; [lia|exact Hlast].
      * injection H as <- <-. exists 0%nat.
        rewrite !Nat.add_0_r, Nat.add_1_r.
        repeat split; [lia| |left; split; [exact E|left; exact Ereq]].
        intros i Hi. lia.
Qed.

(** [k] retried failures, then an exception that is not a
    [RequestException]. *)
Lemma query_loop_foreign (k : nat) : forall (a m : nat) s e,
  (k < m)%nat ->
  Z.of_nat (a + m) <= max_retries config ->
  (forall i, (i < k)%nat -> refused clock config (Z.of_nat (a + i)) = None) ->
  (forall i, (i < k)%nat -> exists e',
      attempt_outcome (net (calls s + i)) = Raise e' /\
      is_RequestException e' = true) ->
  attempt_outcome (net (calls s + k)) = Raise e ->
  is_RequestException e = false ->
  Client.query_loop net clock config overpass_ql (Z.of_nat <$> seq a m) s =
  (Raise e,
   mkState (calls s + (k + 1))
           (events s ++ retry_events config overpass_ql a k) (cache s)).
Proof.
  induction k as [|k IH]; intros a m s e Hkm Hbudget Hd Hfail He Hforeign;
    (destruct m as [|m]; [lia|]); rewrite range_from_cons, query_loop_cons.
  - rewrite Nat.add_0_r in He.
    erewrite bind_raise
      by (apply attempt_once_foreign; [exact He|exact Hforeign]).
    rewrite Nat.add_1_r. reflexivity.
  - destruct (Hfail 0%nat ltac:(lia)) as (e0 & He0 & Hreq).
    rewrite Nat.add_0_r in He0.
    erewrite bind_ok
      by (apply (attempt_once_retry _ _ _ _ _ _ e0);
          [exact He0|exact Hreq|lia|
           rewrite <- (Nat.add_0_r a); apply Hd; lia]).
    cbn beta iota.
    rewrite (IH (S a) m _ e); cbn [calls events cache].
    + f_equal. f_equal; [lia|].
      unfold retry_events. cbn [seq flat_map].
      rewrite <- !app_assoc. reflexivity.
    + lia.
    + lia.
    + intros i Hi. replace (S a + i)%nat with (a + S i)%nat by lia.
      apply Hd. lia.
    + intros i Hi. destruct (Hfail (S i) ltac:(lia)) as (e' & He' & Hreq').
      exists e'. split; [|exact Hreq'].
      replace (S (calls s) + i)%nat with (calls s + S i)%nat by lia.
      exact He'.
    + replace (S (calls s) + k)%nat with (calls s + S k)%nat by lia.
      exact He.
    + exact Hforeign.
Qed.

End ClientFacts.

Lemma attempt_outcome_accepted (o : GetOutcome) (data : Payload) :
  attempt_outcome o = Ok data <-> accepted o data.
Proof.
  unfold attempt_outcome, accepted, Lib.raise_for_status, Lib.json. split.
  - destruct o as [r|e]; [|discriminate].
    destruct (400 <=? status_code r) eqn:E1, (status_code r <? 600) eqn:E2;
      cbn; try discriminate;
      (destruct (body r) as [d|] eqn:Eb; cbn; [|discriminate]);
      intros [= <-]; exists r; (split; [reflexivity|]); (split; [|exact Eb]);
      apply Z.leb_le in E1 || apply Z.leb_gt in E1;
      apply Z.ltb_lt in E2 || apply Z.ltb_ge in E2; lia.
  - intros (r & -> & Hstatus & Hbody).
    replace ((400 <=? status_code r) && (status_code r <? 600)) with false.
    + cbn. rewrite Hbody. reflexivity.
    + symmetry. apply andb_false_iff.
      destruct (Z.leb_spec 400 (status_code r)); [right|left; reflexivity].
      apply Z.ltb_ge. lia.
Qed.

(** X1. Whatever the collaborator does, a [query] with [max_retries >= 1]
    makes [j] calls of [requests.get] for some [j] between 1 and
    [max_retries], all with the configured url, query and timeout,
    separated by exactly the backoff sleeps [retry_delay * 2^0], ...,
    [retry_delay * 2^(j-2)]; its last action is a call, never a sleep, and
    the cache is untouched. *)
Theorem X1_query_actions_for_any_collaborator
    (net : nat -> GetOutcome) (clock : Q -> option exn)
    (config : OverpassConfig)
    (overpass_ql : string) (s : state) (r : result Payload) (s' : state) :
  1 <= max_retries config ->
  Client.query net clock config overpass_ql s = (r, s') ->
  exists j : nat,
    (1 <= j)%nat /\ Z.of_nat j <= max_retries config /\
    calls s' = (calls s + j)%nat /\
    cache s' = cache s /\
    events s' = events s ++ retry_events config overpass_ql 0 (j - 1) /\
    count_gets (retry_events config overpass_ql 0 (j - 1)) = j /\
    sleeps (retry_events config overpass_ql 0 (j - 1)) =
      (fun i => (retry_delay config * inject_Z (2 ^ Z.of_nat i))%Q)
        <$> seq 0 (j - 1) /\
    last (retry_events config overpass_ql 0 (j - 1)) =
      Some (EGet (url config) overpass_ql (timeout config)).
Proof.
  intros Hn H. unfold Client.query, range in H.
  replace (Z.to_nat (max_retries config))
    with (S (Z.to_nat (max_retries config) - 1)) in H by lia.
  apply query_loop_run in H; [|lia].
  destruct H as (j & Hj & -> & _ & _). cbn [calls events cache].
  exists (S j). replace (S j - 1)%nat with j by lia.
  split; [lia|]. split; [lia|]. split; [reflexivity|].
  split; [reflexivity|]. split; [reflexivity|].
  split; [rewrite count_gets_retry_events; lia|].
  split; [apply sleeps_retry_events|apply last_retry_events].
Qed.

Lemma X1_query_actions_for_any_collaborator_witness :
  exists j : nat,
    (1 <= j)%nat /\ Z.of_nat j <= 3 /\
    calls (Client.query broken_net cpython_clock DEFAULT_CONFIG "q" (mkState 0 [] ∅)).2 = j.
Proof.
  destruct (X1_query_actions_for_any_collaborator broken_net cpython_clock DEFAULT_CONFIG
              "q" (mkState 0 [] ∅) _ _ ltac:(cbn; lia) (surjective_pairing _))
    as (j & H1 & H2 & H3 & _).
  exists j. split; [exact H1|]. split; [exact H2|exact H3].
Defined.

(** X2. With [max_retries >= 1], a payload returned by [query] is the
    decoded body of the response to the last call it made, a response
    whose status is not a 4xx or 5xx one, and every earlier call of the
    run failed with a [RequestException]: the empty dict of the final
    [return] is never what comes back.  An exception raised by [query] is
    either the one of its last attempt, which then is not a
    [RequestException] or is the failure of attempt number [max_retries],
    or the one raised by the backoff that follows a retried failure with
    attempts left: the delay overflows as a float, or [time.sleep]
    refuses it. *)
Theorem X2_query_result_comes_from_last_call
    (net : nat -> GetOutcome) (clock : Q -> option exn)
    (config : OverpassConfig)
    (overpass_ql : string) (s : state) (r : result Payload) (s' : state) :
  1 <= max_retries config ->
  Client.query net clock config overpass_ql s = (r, s') ->
  (calls s < calls s')%nat /\
  (forall i, (calls s <= i < calls s' - 1)%nat -> exists e,
      attempt_outcome (net i) = Raise e /\ is_RequestException e = true) /\
  match r with
  | Ok data => accepted (net (calls s' - 1)%nat) data
  | Raise e =>
      (attempt_outcome (net (calls s' - 1)%nat) = Raise e /\
       (is_RequestException e = false \/
        Z.of_nat (calls s' - calls s) = max_retries config)) \/
      (refused clock config (Z.of_nat (calls s' - calls s - 1)) = Some e /\
       Z.of_nat (calls s' - calls s) < max_retries config /\
       exists e', attempt_outcome (net (calls s' - 1)%nat) = Raise e' /\
                  is_RequestException e' = true)
  end.
Proof.
  intros Hn H. unfold Client.query, range in H.
  replace (Z.to_nat (max_retries config))
    with (S (Z.to_nat (max_retries config) - 1)) in H by lia.
  apply query_loop_run in H; [|lia].
  destruct H as (j & Hj & -> & Hfail & Hr). cbn [calls events cache].
  replace (calls s + S j - 1)%nat with (calls s + j)%nat by lia.
  replace (calls s + S j - calls s - 1)%nat with j by lia.
  replace (calls s + S j - calls s)%nat with (S j) by lia.
  split; [lia|]. split.
  - intros i Hi. destruct (Hfail (i - calls s)%nat ltac:(lia)) as (e & He & Hq).
    exists e. replace (calls s + (i - calls s))%nat with i in He by lia. auto.
  - destruct r as [data|e].
    + apply attempt_outcome_accepted, Hr.
    + destruct Hr as [[Ho Hc]|(Hs & Hlt & Hlast)].
      * left. split; [exact Ho|].
        destruct Hc as [Hc| ->]; [left; exact Hc|right]. lia.
      * right. split; [exact Hs|]. split; [lia|exact Hlast].
Qed.

Lemma X2_query_result_comes_from_last_call_witness :
  accepted (flaky_net 2) ∅ /\
  attempt_outcome (dead_net 2) = Raise (RequestException ConnectionError) /\
  refused cpython_clock slow_config 0 = Some OverflowError.
Proof.
  split; [|split].
  - destruct (X2_query_result_comes_from_last_call flaky_net cpython_clock
                DEFAULT_CONFIG "q" (mkState 0 [] ∅) (Ok ∅)
                (mkState 3 (retry_events DEFAULT_CONFIG "q" 0 2) ∅)
                ltac:(cbn; lia) eq_refl) as (_ & _ & H).
    exact H.
  - destruct (X2_query_result_comes_from_last_call dead_net cpython_clock
                DEFAULT_CONFIG "q" (mkState 0 [] ∅)
                (Raise (RequestException ConnectionError))
                (mkState 3 (retry_events DEFAULT_CONFIG "q" 0 2) ∅)
                ltac:(cbn; lia) eq_refl) as (_ & _ & [[H _]|(_ & H & _)]).
    + exact H.
    + cbn in H. lia.
  - destruct (X2_query_result_comes_from_last_call flaky_net cpython_clock
                slow_config "q" (mkState 0 [] ∅)
                (Raise OverflowError)
                (mkState 1 (retry_events slow_config "q" 0 0) ∅)
                ltac:(cbn; lia) eq_refl) as (_ & _ & [[H _]|(H & _)]).
    + discriminate H.
    + exact H.
Defined.

(** X3. [query] retries only a [RequestException]: when, after [k]
    retried failures whose backoffs went through, an attempt inside the
    budget raises any other exception, that exception reaches the caller
    at once, after exactly [k+1] calls and with no sleep after it, however
    many attempts are left. *)
Theorem X3_query_does_not_retry_other_exceptions
    (net : nat -> GetOutcome) (clock : Q -> option exn)
    (config : OverpassConfig)
    (overpass_ql : string) (s : state) (k : nat) (e : exn) :
  Z.of_nat k < max_retries config ->
  (forall i, (i < k)%nat -> exists e',
      attempt_outcome (net (calls s + i)%nat) = Raise e' /\
      is_RequestException e' = true) ->
  (forall i, (i < k)%nat -> backoff_accepted clock config i) ->
  attempt_outcome (net (calls s + k)%nat) = Raise e ->
  is_RequestException e = false ->
  Client.query net clock config overpass_ql s =
  (Raise e,
   mkState (calls s + (k + 1))%nat
           (events s ++ retry_events config overpass_ql 0 k) (cache s)).
Proof.
  intros Hk Hfail Hsleep He Hforeign. unfold Client.query, range.
  apply query_loop_foreign;
    [lia|lia| |exact Hfail|exact He|exact Hforeign].
  intros i Hi. apply refused_accepted, Hsleep, Hi.
Qed.

Lemma X3_query_does_not_retry_other_exceptions_witness :
  Client.query broken_net cpython_clock DEFAULT_CONFIG "q" (mkState 0 [] ∅) =
  (Raise (OtherException "MemoryError"),
   mkState 2
     [EGet "https://overpass-api.de/api/interpreter" "q" 30; ESleep (1 * 1)%Q;
      EGet "https://overpass-api.de/api/interpreter" "q" 30]
     ∅).
Proof.
  apply (X3_query_does_not_retry_other_exceptions broken_net cpython_clock
           DEFAULT_CONFIG "q" (mkState 0 [] ∅) 1 (OtherException "MemoryError")).
  - cbn; lia.
  - intros i Hi. exists (RequestException Timeout).
    destruct i as [|i]; [split; reflexivity|lia].
  - intros i Hi. destruct i as [|i]; [|lia].
    split; [cbn; lia|split; [vm_compute; discriminate|reflexivity]].
  - reflexivity.
  - reflexivity.
Defined.

(** X4. With [max_retries <= 0] the loop of [query] has no iteration: no
    request is sent, nothing is slept, and the empty dict is returned;
    [find_ways] on a valid bounding box then returns the empty list with
    the state unchanged. *)
Theorem X4_no_budget_no_request
    (net : nat -> GetOutcome) (clock : Q -> option exn)
    (config : OverpassConfig) (str : Q -> string)
    (overpass_ql : string) (bbox : BoundingBox)
    (tags : option (list (string * string))) (s : state) :
  max_retries config <= 0 ->
  Client.query net clock config overpass_ql s = (Ok ∅, s) /\
  (BBox.is_valid bbox = true ->
   Repo.find_ways net clock config str bbox tags s = (Ok [], s)).
Proof.
  intros Hn.
  assert (Hq : forall q, Client.query net clock config q s = (Ok ∅, s)).
  { intros q. unfold Client.query, range.
    replace (Z.to_nat (max_retries config)) with 0%nat by lia. reflexivity. }
  split; [apply Hq|].
  intros Hv. unfold Repo.find_ways. rewrite Hv. cbn [negb].
  unfold Repo._query_and_parse. eapply try_ok.
  unfold Repo.query_and_parse_body. erewrite bind_ok by apply Hq.
  reflexivity.
Qed.

Lemma X4_no_budget_no_request_witness :
  Repo.find_ways way_net cpython_clock (mkOverpassConfig "u" 30 0 1) show_float valid_bbox
                 None (mkState 0 [] ∅) = (Ok [], mkState 0 [] ∅).
Proof.
  apply (X4_no_budget_no_request way_net cpython_clock (mkOverpassConfig "u" 30 0 1)
           show_float "q" valid_bbox None (mkState 0 [] ∅)).
  - cbn. lia.
  - reflexivity.
Defined.

(** X5. [is_available] sends exactly one request, the fixed probe with a
    timeout of 5, whatever [timeout], [max_retries] and [retry_delay] are
    configured, and never sleeps.  It answers [True] exactly when the
    collaborator responds with status 200 (a 201 or a 204 gives [False]),
    [False] when the call raises a [RequestException]; any other
    exception of the call propagates. *)
Theorem X5_is_available_single_probe
    (net : nat -> GetOutcome) (config : OverpassConfig) (s : state) :
  Client.is_available net config s =
  (match net (calls s) with
   | Responds r => Ok (status_code r =? 200)
   | Fails e => if is_RequestException e then Ok false else Raise e
   end,
   mkState (S (calls s)) (events s ++ [probe config]) (cache s)).
Proof.
  unfold Client.is_available, try_except, Lib.requests_get, probe.
  unfold mbind, M_bind, mret, M_ret.
  destruct (net (calls s)) as [r|e]; [reflexivity|].
  destruct (is_RequestException e); reflexivity.
Qed.

(** ** Further properties of the repository *)

(** [_query_and_parse], from what the query returned. *)
Lemma query_and_parse_cases net clock config query k s :
  Repo._query_and_parse net clock config query k s =
  match Client.query net clock config query s with
  | (Raise _, s1) => (Ok [], s1)
  | (Ok data, s1) =>
      match data !! "elements" with
      | None | Some JScalar => (Ok [], s1)
      | Some (JArray items) =>
          match Repo.parse_loop k items [] s1 with
          | (Ok polygons, s2) => (Ok polygons, s2)
          | (Raise _, s2) => (Ok [], s2)
          end
      end
  end.
Proof.
  unfold Repo._query_and_parse, try_except, Repo.query_and_parse_body.
  unfold mbind at 1. unfold M_bind at 1.
  destruct (Client.query net clock config query s) as [[data|e] s1]; [|reflexivity].
  destruct (data !! "elements") as [v|] eqn:E.
  - assert (Hsize : Nat.eqb (size data) 0 = false).
    { apply Nat.eqb_neq, (map_size_ne_0_lookup_2 _ "elements"). eauto. }
    rewrite Hsize, bool_decide_eq_true_2 by eauto. cbn [orb negb].
    unfold mbind, M_bind, lift, getitem, Repo.iterate. cbn.
    destruct v as [items|]; [|reflexivity].
    destruct (Repo.parse_loop k items [] s1) as [[l|e] s2]; reflexivity.
  - rewrite (bool_decide_eq_false_2 (is_Some None)) by (intros [? ?]; discriminate).
    rewrite orb_true_r. reflexivity.
Qed.

Lemma saved_app (l1 l2 : list Polygon) (c : gmap Z Polygon) :
  saved (l1 ++ l2) c = saved l2 (saved l1 c).
Proof. unfold saved. apply foldl_app. Qed.

(** Every run of the batch loop: it touches the cache only, by saving the
    polygons it appends, each the parse of an object of the batch with the
    requested type; it can only raise at an entry that is not an object. *)
Lemma parse_loop_run k (items : list Item) : forall polygons s r s',
  Repo.parse_loop k items polygons s = (r, s') ->
  exists new,
    s' = mkState (calls s) (events s) (saved new (cache s)) /\
    Forall (parsed_from k items) new /\
    match r with
    | Ok l => l = polygons ++ new /\ Forall (fun it => it <> ItemScalar) items
    | Raise e => e = AttributeError /\ In ItemScalar items
    end.
Proof.
  induction items as [|it items IH]; intros polygons s r s' H.
  - cbn in H. injection H as <- <-. exists []. rewrite app_nil_r.
    destruct s; cbn. repeat split; constructor.
  - assert (Hweaken : forall new,
              Forall (parsed_from k items) new ->
              Forall (parsed_from k (it :: items)) new).
    { intros new Hnew. eapply Forall_impl; [exact Hnew|].
      intros p (e & Hin & Ht & Hp).
      exists e. split; [right; exact Hin|auto]. }
    destruct it as [element|].
    + rewrite parse_loop_object in H.
      destruct (bool_decide (el_type element = Some (value k))) eqn:Et.
      * destruct (Repo._parse_element element k) as [p|] eqn:Ep.
        -- apply IH in H as (new & -> & Hnew & Hr). cbn [calls events cache].
           exists (p :: new). split; [reflexivity|]. split.
           ++ constructor; [|auto]. exists element.
              apply bool_decide_eq_true in Et. split; [left; reflexivity|auto].
           ++ destruct r as [l|e].
              ** destruct Hr as [-> Hobj]. rewrite <- app_assoc.
                 split; [reflexivity|]. constructor; [discriminate|exact Hobj].
              ** destruct Hr as [-> Hin]. split; [reflexivity|right; exact Hin].
        -- apply IH in H as (new & -> & Hnew & Hr).
           exists new. split; [reflexivity|]. split; [auto|].
           destruct r as [l|e].
           ++ destruct Hr as [-> Hobj].
              split; [reflexivity|]. constructor; [discriminate|exact Hobj].
           ++ destruct Hr as [-> Hin]. split; [reflexivity|right; exact Hin].
      * apply IH in H as (new & -> & Hnew & Hr).
        exists new. split; [reflexivity|]. split; [auto|].
        destruct r as [l|e].
        -- destruct Hr as [-> Hobj].
           split; [reflexivity|]. constructor; [discriminate|exact Hobj].
        -- destruct Hr as [-> Hin]. split; [reflexivity|right; exact Hin].
    + cbn in H. injection H as <- <-. exists [].
      destruct s; cbn. split; [reflexivity|]. split; [constructor|].
      split; [reflexivity|left; reflexivity].
Qed.

Lemma parse_loop_objects_then k (elements : list Element) (tail : list Item) :
  forall polygons s,
  Repo.parse_loop k ((ItemObject <$> elements) ++ tail) polygons s =
  Repo.parse_loop k tail (polygons ++ parsed k elements)
    (mkState (calls s) (events s) (saved (parsed k elements) (cache s))).
Proof.
  induction elements as [|e es IH]; intros polygons s.
  - cbn. rewrite app_nil_r. destruct s; reflexivity.
  - rewrite fmap_cons. cbn [app]. rewrite parse_loop_object.
    unfold parsed. cbn [omap list_omap]. fold (parsed k es).
    destruct (bool_decide _).
    + destruct (Repo._parse_element e k) as [p|]; rewrite IH; cbn.
      * rewrite <- app_assoc. reflexivity.
      * reflexivity.
    + rewrite IH. reflexivity.
Qed.

Lemma count_gets_app (es1 es2 : list event) :
  count_gets (es1 ++ es2) = (count_gets es1 + count_gets es2)%nat.
Proof. unfold count_gets. rewrite List.filter_app, length_app. reflexivity. Qed.

(** Whatever the collaborator does, the loop makes as many calls as it
    records requests, at most one per remaining attempt. *)
Lemma query_loop_calls net clock config overpass_ql (attempts : list Z) :
  forall s r s',
  Client.query_loop net clock config overpass_ql attempts s = (r, s') ->
  exists new,
    events s' = events s ++ new /\
    calls s' = (calls s + count_gets new)%nat /\
    (count_gets new <= length attempts)%nat.
Proof.
  induction attempts as [|attempt rest IH]; intros s r s' H.
  - cbn in H. injection H as <- <-. exists []. rewrite app_nil_r.
    cbn. split; [reflexivity|]. split; lia.
  - rewrite query_loop_cons in H. unfold mbind, M_bind in H.
    destruct (Client.attempt_once net clock config overpass_ql attempt s)
      as [c s1] eqn:E.
    apply attempt_once_state in E as (Hcalls & _ & Hev).
    assert (Hone : exists new1, events s1 = events s ++ new1 /\
                                count_gets new1 = 1%nat).
    { destruct Hev as [-> | ->]; eexists; (split; [reflexivity|]);
        reflexivity. }
    destruct Hone as (new1 & Hev1 & Hget1).
    assert (Hstop : s' = s1 ->
              exists new, events s' = events s ++ new /\
                calls s' = (calls s + count_gets new)%nat /\
                (count_gets new <= length (attempt :: rest))%nat).
    { intros ->. exists new1. cbn [length].
      split; [exact Hev1|]. split; lia. }
    destruct c as [[d|] | e].
    + injection H as _ <-. auto.
    + apply IH in H as (new & Hev2 & Hc2 & Hle).
      exists (new1 ++ new). rewrite count_gets_app.
      rewrite Hev2, Hev1, app_assoc. cbn [length].
      split; [reflexivity|]. split; lia.
    + injection H as _ <-. auto.
Qed.

(** What [saved] leaves under an id: the last polygon of the list with
    that id, or the old entry when the list has none. *)
Lemma saved_lookup_cases (l : list Polygon) : forall c id,
  (exists q, In q l /\ osm_id q = id /\ saved l c !! id = Some q) \/
  (saved l c !! id = c !! id /\ forall q, In q l -> osm_id q <> id).
Proof.
  induction l as [|x l IH]; intros c id.
  - right. split; [reflexivity|]. intros q [].
  - cbn [saved foldl]. fold (saved l (<[osm_id x := x]> c)).
    destruct (IH (<[osm_id x := x]> c) id) as [(q & Hq & Hid & Hl)|[Hl Hno]].
    + left. exists q. split; [right; exact Hq|auto].
    + destruct (decide (osm_id x = id)) as [Hx|Hx].
      * left. exists x. split; [left; reflexivity|]. split; [exact Hx|].
        rewrite Hl, <- Hx. apply lookup_insert_eq.
      * right. split.
        -- rewrite Hl. apply lookup_insert_ne, Hx.
        -- intros q [<-|Hq]; [exact Hx|apply Hno, Hq].
Qed.

(** The fields of a parsed polygon. *)
Lemma parse_element_fields (element : Element) (k : PolygonType)
    (p : Polygon) :
  Repo._parse_element element k = Some p ->
  osm_id p = el_id element /\
  polygon_type p = k /\
  tags p = default ∅ (el_tags element) /\
  properties p = ∅ /\
  coordinates p <> [] /\
  (k = WAY -> Poly.first_eq_last (coordinates p) = true).
Proof.
  intros H. unfold Repo._parse_element in H.
  destruct (Repo.parse_element_body element k) as [r|e] eqn:E;
    [subst r|discriminate].
  apply parse_element_body_inv in E as (cs & _ & Hcs).
  destruct cs as [|c cs]; [discriminate|].
  destruct Hcs as (p' & [= <-] & Hclose).
  destruct (bool_decide (k = WAY)) eqn:Ek.
  - unfold Poly.close in Hclose.
    destruct (Poly.is_closed _) eqn:Ec; cbn in Hclose;
      unfold mret, result_ret in Hclose; injection Hclose as <-; cbn.
    + repeat split; try discriminate.
      intros _. apply is_closed_first_eq_last in Ec. exact Ec.
    + repeat split; [destruct cs; discriminate|].
      intros _. apply first_eq_last_snoc.
  - injection Hclose as <-. cbn. repeat split; [discriminate|].
    intros ->. rewrite bool_decide_eq_true_2 in Ek by reflexivity.
    discriminate.
Qed.

Lemma find_ways_valid net clock config str bbox tags s :
  BBox.is_valid bbox = true ->
  Repo.find_ways net clock config str bbox tags s =
  Repo._query_and_parse net clock config
    (Repo.way_query str bbox (default [("building", "yes")] tags)) WAY s.
Proof. intros Hv. unfold Repo.find_ways. rewrite Hv. reflexivity. Qed.

(** X6. When the query of [find_ways] returns a payload whose [elements]
    is an array of objects, [find_ways] returns, in the order of the
    array, the polygons of the objects that declare the type [way] and
    parse, skipping the others; afterwards the cache is the cache left by
    the query with these polygons saved one after the other, so that of
    two with the same id the later one stays. *)
Theorem X6_find_ways_returns_the_parsed_ways
    (net : nat -> GetOutcome) (clock : Q -> option exn)
    (config : OverpassConfig) (str : Q -> string)
    (bbox : BoundingBox) (tags : option (list (string * string)))
    (s s1 : state) (data : Payload) (elements : list Element) :
  BBox.is_valid bbox = true ->
  Client.query net clock config
    (Repo.way_query str bbox (default [("building", "yes")] tags)) s =
    (Ok data, s1) ->
  data !! "elements" = Some (JArray (ItemObject <$> elements)) ->
  Repo.find_ways net clock config str bbox tags s =
  (Ok (parsed WAY elements),
   mkState (calls s1) (events s1) (saved (parsed WAY elements) (cache s1))).
Proof.
  intros Hv Hq He. rewrite find_ways_valid by exact Hv.
  rewrite query_and_parse_cases, Hq, He, parse_loop_objects. reflexivity.
Qed.

Lemma X6_find_ways_returns_the_parsed_ways_witness :
  exists p1 p2 s',
    Repo.find_ways batch_net cpython_clock DEFAULT_CONFIG show_float valid_bbox None
                   (mkState 0 [] ∅) = (Ok [p1; p2], s') /\
    coordinates p1 = [(0, 0); (1, 0); (1, 1); (0, 0)]%Q /\
    coordinates p2 = [(0, 0); (2, 0); (2, 2); (0, 0)]%Q /\
    cache s' !! 1 = Some p2 /\ size (cache s') = 1%nat.
Proof.
  eexists _, _, _. split.
  - eapply (X6_find_ways_returns_the_parsed_ways batch_net cpython_clock DEFAULT_CONFIG
              show_float valid_bbox None (mkState 0 [] ∅) _ _
              [open_way; some_relation; bare_way; ring_way]);
      reflexivity.
  - repeat split; reflexivity.
Defined.

(** X7. When the payload returned to [find_ways] has no [elements] key,
    or holds under it a value that is not an array, [find_ways] returns
    the empty list and leaves the cache as the query left it. *)
Theorem X7_find_ways_without_elements
    (net : nat -> GetOutcome) (clock : Q -> option exn)
    (config : OverpassConfig) (str : Q -> string)
    (bbox : BoundingBox) (tags : option (list (string * string)))
    (s s1 : state) (data : Payload) :
  BBox.is_valid bbox = true ->
  Client.query net clock config
    (Repo.way_query str bbox (default [("building", "yes")] tags)) s =
    (Ok data, s1) ->
  data !! "elements" = None \/ data !! "elements" = Some JScalar ->
  Repo.find_ways net clock config str bbox tags s = (Ok [], s1).
Proof.
  intros Hv Hq He. rewrite find_ways_valid by exact Hv.
  rewrite query_and_parse_cases, Hq. destruct He as [-> | ->]; reflexivity.
Qed.

Lemma X7_find_ways_without_elements_witness :
  Repo.find_ways remark_net cpython_clock DEFAULT_CONFIG show_float valid_bbox None
                 (mkState 0 [] ∅) =
    (Ok [], (Client.query remark_net cpython_clock DEFAULT_CONFIG
               (Repo.way_query show_float valid_bbox [("building", "yes")])
               (mkState 0 [] ∅)).2) /\
  Repo.find_ways scalar_net cpython_clock DEFAULT_CONFIG show_float valid_bbox None
                 (mkState 0 [] ∅) =
    (Ok [], (Client.query scalar_net cpython_clock DEFAULT_CONFIG
               (Repo.way_query show_float valid_bbox [("building", "yes")])
               (mkState 0 [] ∅)).2).
Proof.
  split.
  - eapply (X7_find_ways_without_elements remark_net cpython_clock DEFAULT_CONFIG
              show_float valid_bbox None (mkState 0 [] ∅));
      [reflexivity|reflexivity|left; reflexivity].
  - eapply (X7_find_ways_without_elements scalar_net cpython_clock DEFAULT_CONFIG
              show_float valid_bbox None (mkState 0 [] ∅));
      [reflexivity|reflexivity|right; reflexivity].
Defined.

(** X8. When the [elements] array holds an entry that is not an object
    after some objects, [find_ways] returns the empty list, dropping the
    polygons parsed so far from its result, yet those polygons stay saved
    in the cache. *)
Theorem X8_find_ways_drops_the_result_but_keeps_the_cache
    (net : nat -> GetOutcome) (clock : Q -> option exn)
    (config : OverpassConfig) (str : Q -> string)
    (bbox : BoundingBox) (tags : option (list (string * string)))
    (s s1 : state) (data : Payload) (elements : list Element)
    (rest : list Item) :
  BBox.is_valid bbox = true ->
  Client.query net clock config
    (Repo.way_query str bbox (default [("building", "yes")] tags)) s =
    (Ok data, s1) ->
  data !! "elements" =
    Some (JArray ((ItemObject <$> elements) ++ ItemScalar :: rest)) ->
  Repo.find_ways net clock config str bbox tags s =
  (Ok [],
   mkState (calls s1) (events s1) (saved (parsed WAY elements) (cache s1))).
Proof.
  intros Hv Hq He. rewrite find_ways_valid by exact Hv.
  rewrite query_and_parse_cases, Hq, He, parse_loop_objects_then.
  reflexivity.
Qed.

Lemma X8_find_ways_drops_the_result_but_keeps_the_cache_witness :
  exists s',
    Repo.find_ways null_item_net cpython_clock DEFAULT_CONFIG show_float valid_bbox None
                   (mkState 0 [] ∅) = (Ok [], s') /\
    exists p, cache s' !! 1 = Some p /\
              coordinates p = [(0, 0); (1, 0); (1, 1); (0, 0)]%Q.
Proof.
  eexists. split.
  - eapply (X8_find_ways_drops_the_result_but_keeps_the_cache null_item_net cpython_clock
              DEFAULT_CONFIG show_float valid_bbox None (mkState 0 [] ∅) _ _
              [open_way] []);
      reflexivity.
  - eexists. split; reflexivity.
Defined.

(** X9. On a valid bounding box, every polygon [find_ways] returns is of
    kind way, has no caller properties, has at least one coordinate and
    equal first and last coordinates, and [find_by_id] on its id
    afterwards finds a polygon of the returned list with that id. *)
Theorem X9_find_ways_results_are_closed_ways_in_the_cache
    (net : nat -> GetOutcome) (clock : Q -> option exn)
    (config : OverpassConfig) (str : Q -> string)
    (bbox : BoundingBox) (tags : option (list (string * string)))
    (s : state) (r : result (list Polygon)) (s' : state) :
  BBox.is_valid bbox = true ->
  Repo.find_ways net clock config str bbox tags s = (r, s') ->
  exists l,
    r = Ok l /\
    forall p, In p l ->
      polygon_type p = WAY /\
      properties p = ∅ /\
      coordinates p <> [] /\
      Poly.first_eq_last (coordinates p) = true /\
      exists q, In q l /\ osm_id q = osm_id p /\
                Repo.find_by_id (osm_id p) s' = (Ok (Some q), s').
Proof.
  intros Hv H. rewrite find_ways_valid, query_and_parse_cases in H by exact Hv.
  assert (Hnil : forall s0, (r, s') = (Ok [], s0) ->
            exists l, r = Ok l /\ forall p, In p l ->
              polygon_type p = WAY /\ properties p = ∅ /\
              coordinates p <> [] /\
              Poly.first_eq_last (coordinates p) = true /\
              exists q, In q l /\ osm_id q = osm_id p /\
                        Repo.find_by_id (osm_id p) s' = (Ok (Some q), s')).
  { intros s0 [= -> ->]. exists []. split; [reflexivity|]. intros p []. }
  destruct (Client.query net clock config _ s) as [[data|e] s1];
    [|symmetry in H; eauto].
  destruct (data !! "elements") as [[items|]|];
    [|symmetry in H; eauto|symmetry in H; eauto].
  destruct (Repo.parse_loop WAY items [] s1) as [[l|e] s2] eqn:E;
    [|symmetry in H; eauto].
  injection H as <- <-. exists l. split; [reflexivity|].
  apply parse_loop_run in E as (new & -> & Hnew & Hl & _).
  cbn [app] in Hl. subst new.
  intros p Hp. rewrite Forall_forall in Hnew.
  destruct (Hnew p ltac:(apply list_elem_of_In, Hp)) as (e & _ & _ & Hparse).
  apply parse_element_fields in Hparse as (_ & Hk & _ & Hprops & Hne & Hfl).
  split; [exact Hk|]. split; [exact Hprops|]. split; [exact Hne|].
  split; [auto|].
  destruct (saved_lookup_cases l (cache s1) (osm_id p))
    as [(q & Hq & Hid & Hlook)|[_ Hno]].
  - exists q. split; [exact Hq|]. split; [exact Hid|].
    unfold Repo.find_by_id. cbn [cache]. rewrite Hlook. reflexivity.
  - exfalso. exact (Hno p Hp eq_refl).
Qed.

Lemma X9_find_ways_results_are_closed_ways_in_the_cache_witness :
  exists l,
    (Repo.find_ways batch_net cpython_clock DEFAULT_CONFIG show_float valid_bbox None
                    (mkState 0 [] ∅)).1 = Ok l /\
    forall p, In p l -> polygon_type p = WAY.
Proof.
  destruct (X9_find_ways_results_are_closed_ways_in_the_cache batch_net cpython_clock
              DEFAULT_CONFIG show_float valid_bbox None (mkState 0 [] ∅)
              _ _ eq_refl (surjective_pairing _)) as (l & Hl & Hall).
  exists l. split; [exact Hl|]. intros p Hp. apply (Hall p Hp).
Defined.

(** X10. Whatever the collaborator does, [find_ways] on a valid bounding
    box makes at most [max_retries] calls of [requests.get] (none when
    [max_retries <= 0]), every one of them carrying the way query built
    from the box and the tags, whose output statement is [out geom;]. *)
Theorem X10_find_ways_requests
    (net : nat -> GetOutcome) (clock : Q -> option exn)
    (config : OverpassConfig) (str : Q -> string)
    (bbox : BoundingBox) (tags : option (list (string * string)))
    (s : state) (r : result (list Polygon)) (s' : state) :
  let q := Repo.way_query str bbox (default [("building", "yes")] tags) in
  BBox.is_valid bbox = true ->
  Repo.find_ways net clock config str bbox tags s = (r, s') ->
  (exists new,
      events s' = events s ++ new /\
      issues_only (EGet (url config) q (timeout config)) new /\
      calls s' = (calls s + count_gets new)%nat /\
      (count_gets new <= Z.to_nat (max_retries config))%nat) /\
  (exists statements, q = statements +:+ "out geom;" +:+ newline).
Proof.
  intros q Hv H. split.
  - rewrite find_ways_valid, query_and_parse_cases in H by exact Hv. fold q in H.
    destruct (Client.query net clock config q s) as [rq s1] eqn:Eq.
    assert (Hs1 : exists new,
              events s1 = events s ++ new /\
              issues_only (EGet (url config) q (timeout config)) new /\
              calls s1 = (calls s + count_gets new)%nat /\
              (count_gets new <= Z.to_nat (max_retries config))%nat).
    { unfold Client.query in Eq.
      pose proof (query_loop_state _ _ _ _ _ _ _ _ Eq) as (_ & new & Hev & Hiss).
      pose proof (query_loop_calls _ _ _ _ _ _ _ _ Eq) as (new' & Hev' & Hc & Hle).
      rewrite Hev in Hev'. apply app_inv_head in Hev'. subst new'.
      exists new. unfold range in Hle. rewrite length_fmap, length_seq in Hle.
      auto. }
    assert (Hsame : events s' = events s1 /\ calls s' = calls s1).
    { destruct rq as [data|e]; [|injection H as _ <-; auto].
      destruct (data !! "elements") as [[items|]|];
        [|injection H as _ <-; auto|injection H as _ <-; auto].
      destruct (Repo.parse_loop WAY items [] s1) as [rl s2] eqn:E.
      apply parse_loop_run in E as (new & -> & _).
      destruct rl; injection H as _ <-; auto. }
    destruct Hsame as [-> ->]. exact Hs1.
  - subst q. unfold Repo.way_query.
    eexists. rewrite <- !string_app_assoc. reflexivity.
Qed.

Lemma X10_find_ways_requests_witness :
  (calls (Repo.find_ways dead_net cpython_clock DEFAULT_CONFIG show_float valid_bbox None
                         (mkState 0 [] ∅)).2 <= 3)%nat.
Proof.
  destruct (X10_find_ways_requests dead_net cpython_clock DEFAULT_CONFIG show_float
              valid_bbox None (mkState 0 [] ∅) _ _ eq_refl
              (surjective_pairing _)) as [(new & _ & _ & Hc & Hle) _].
  rewrite Hc. exact Hle.
Defined.

(** ** Further properties of the parser *)

Lemma project_complete (geometry : list Node) : forall acc cs,
  Repo.project geometry acc = Ok cs ->
  exists pts, geometry = geometry_of pts /\ cs = acc ++ lon_lat pts.
Proof.
  induction geometry as [|n g IH]; intros acc cs H; cbn in H.
  - injection H as <-. exists []. rewrite app_nil_r. split; reflexivity.
  - destruct n as [[lat|] [lon|]]; cbn in H; try discriminate.
    apply IH in H as (pts & -> & ->).
    exists ((lat, lon) :: pts). rewrite <- app_assoc. split; reflexivity.
Qed.

Lemma project_missing_key (geometry : list Node) : forall acc,
  Exists (fun n => node_lat n = None \/ node_lon n = None) geometry ->
  exists key, Repo.project geometry acc = Raise (KeyError key).
Proof.
  induction geometry as [|n g IH]; intros acc H;
    [apply Exists_nil in H; contradiction|].
  cbn. destruct n as [[lat|] [lon|]]; cbn; eauto.
  apply IH. apply Exists_cons in H as [[H|H]|H]; [discriminate..|exact H].
Qed.

(** X11. [_parse_element] yields a polygon exactly for the elements that
    carry a geometry of at least one point in which every point has both
    [lat] and [lon]; a single point lacking a key makes the whole element
    yield nothing, whatever the requested kind. *)
Theorem X11_parse_element_succeeds_iff_geometry_complete
    (element : Element) (k : PolygonType) :
  (is_Some (Repo._parse_element element k) <->
   exists pts, pts <> [] /\ el_geometry element = Some (geometry_of pts)) /\
  (forall geometry,
      el_geometry element = Some geometry ->
      Exists (fun n => node_lat n = None \/ node_lon n = None) geometry ->
      Repo._parse_element element k = None).
Proof.
  split; [split|].
  - intros [p Hp]. unfold Repo._parse_element in Hp.
    destruct (Repo.parse_element_body element k) as [r|e] eqn:E;
      [subst r|discriminate].
    apply parse_element_body_inv in E as (cs & Hproj & Hcs).
    destruct (el_geometry element) as [g|].
    + apply project_complete in Hproj as (pts & -> & ->).
      exists pts. split; [|reflexivity]. intros ->. discriminate Hcs.
    + injection Hproj as <-. discriminate Hcs.
  - intros (pts & Hne & Hg).
    unfold Repo._parse_element, Repo.parse_element_body.
    rewrite Hg, project_geometry_of. cbn [app].
    destruct (lon_lat pts) as [|c cs] eqn:E.
    { destruct pts; [congruence|discriminate]. }
    cbn. destruct (bool_decide (k = WAY)); cbn; [|eauto].
    unfold Poly.close. destruct (negb _); cbn; eauto.
  - intros geometry Hg Hex.
    unfold Repo._parse_element, Repo.parse_element_body. rewrite Hg.
    destruct (project_missing_key geometry [] Hex) as (key & ->).
    reflexivity.
Qed.

Lemma X11_parse_element_succeeds_iff_geometry_complete_witness :
  is_Some (Repo._parse_element open_way NODE) /\
  Repo._parse_element broken_way WAY = None.
Proof.
  split.
  - apply (X11_parse_element_succeeds_iff_geometry_complete open_way NODE).
    exists [(0, 0); (0, 1); (1, 1)]%Q. split; [discriminate|reflexivity].
  - eapply (X11_parse_element_succeeds_iff_geometry_complete broken_way WAY);
      [reflexivity|].
    apply Exists_cons_tl, Exists_cons_hd. right. reflexivity.
Defined.

(** X12. A polygon produced by [_parse_element] carries the element's id,
    the requested kind (not the type the element declares), the element's
    tags, or no tag when the element has none, and empty properties. *)
Theorem X12_parsed_polygon_fields
    (element : Element) (k : PolygonType) (p : Polygon) :
  Repo._parse_element element k = Some p ->
  osm_id p = el_id element /\
  polygon_type p = k /\
  tags p = default ∅ (el_tags element) /\
  properties p = ∅.
Proof.
  intros H. apply parse_element_fields in H as (H1 & H2 & H3 & H4 & _).
  auto.
Qed.

Lemma X12_parsed_polygon_fields_witness :
  exists p, Repo._parse_element some_relation WAY = Some p /\
            osm_id p = 9 /\ polygon_type p = WAY /\ tags p = ∅.
Proof.
  eexists. split; [reflexivity|].
  destruct (X12_parsed_polygon_fields some_relation WAY _ eq_refl)
    as (H1 & H2 & H3 & _).
  split; [exact H1|]. split; [exact H2|exact H3].
Defined.

(** X13. [_build_tag_conditions] writes one clause per entry, of the exact
    form ["key"="value"] inside square brackets, in the order of the
    entries and with nothing between, before or after the clauses: the
    conditions of two lists put end to end are the two texts put end to
    end, and no tag gives the empty text. Keys and values are copied as
    they are. *)
Theorem X13_build_tag_conditions_concatenates :
  Repo._build_tag_conditions [] = EmptyString /\
  (forall key val : string,
      Repo._build_tag_conditions [(key, val)] =
      "[" +:+ dquote +:+ key +:+ dquote +:+ "=" +:+ dquote +:+ val
          +:+ dquote +:+ "]") /\
  (forall tags1 tags2 : list (string * string),
      Repo._build_tag_conditions (tags1 ++ tags2) =
      Repo._build_tag_conditions tags1 +:+ Repo._build_tag_conditions tags2).
Proof.
  split; [reflexivity|]. split; [reflexivity|].
  intros tags1 tags2. unfold Repo._build_tag_conditions.
  rewrite foldl_app.
  generalize (foldl (fun conditions (kv : string * string) =>
                       conditions +:+ "[" +:+ dquote +:+ kv.1 +:+ dquote
                         +:+ "=" +:+ dquote +:+ kv.2 +:+ dquote +:+ "]")
                    EmptyString tags1) as pre.
  assert (Hgen : forall (l : list (string * string)) (pre acc : string),
            foldl (fun conditions (kv : string * string) =>
                     conditions +:+ "[" +:+ dquote +:+ kv.1 +:+ dquote
                       +:+ "=" +:+ dquote +:+ kv.2 +:+ dquote +:+ "]")
                  (pre +:+ acc) l =
            pre +:+ foldl (fun conditions (kv : string * string) =>
                     conditions +:+ "[" +:+ dquote +:+ kv.1 +:+ dquote
                       +:+ "=" +:+ dquote +:+ kv.2 +:+ dquote +:+ "]")
                  acc l).
  { induction l as [|kv l IH]; intros pre acc; [reflexivity|].
    cbn [foldl]. rewrite string_app_assoc. apply IH. }
  intros pre. rewrite <- (Hgen tags2 pre EmptyString).
  f_equal. clear. induction pre as [|ch pre IH]; [reflexivity|].
  change (String ch pre = String ch (pre +:+ EmptyString)). f_equal. exact IH.
Qed.

(** ** Further properties of polygons *)

Lemma is_valid_eq_is_closed (p : Polygon) :
  Poly.is_valid p = Poly.is_closed p.
Proof.
  unfold Poly.is_valid, Poly.is_closed.
  destruct (Z.of_nat (length (coordinates p)) <? 3); reflexivity.
Qed.

(** X14. [Polygon.is_valid] and [Polygon.is_closed] answer the same on
    every polygon: the length test of [is_valid] is already made by
    [is_closed]. A valid polygon has at least three coordinates and equal
    first and last coordinates, and a polygon whose area is not zero is
    valid. *)
Theorem X14_is_valid_is_is_closed (fa : Float.arith) (p : Polygon) :
  Poly.is_valid p = Poly.is_closed p /\
  (Poly.is_valid p = true <->
   (3 <= length (coordinates p))%nat /\
   Poly.first_eq_last (coordinates p) = true) /\
  (~ (Poly.get_area fa p == 0)%Q -> Poly.is_valid p = true).
Proof.
  pose proof (is_valid_eq_is_closed p) as H1.
  split; [exact H1|]. split.
  - rewrite H1. unfold Poly.is_closed.
    destruct (Z.ltb_spec (Z.of_nat (length (coordinates p))) 3); split.
    + discriminate.
    + intros [Hlen _]. lia.
    + intros Hf. split; [lia|exact Hf].
    + intros [_ Hf]. exact Hf.
  - intros Harea. rewrite H1. unfold Poly.get_area in Harea.
    destruct (Poly.is_closed p); [reflexivity|].
    exfalso. apply Harea. reflexivity.
Qed.

Lemma X14_is_valid_is_is_closed_witness :
  Poly.is_valid simple_polygon = true.
Proof.
  apply (X14_is_valid_is_is_closed exact_arith simple_polygon).
  cbn. discriminate.
Defined.

(** X15. On a polygon with at least two coordinates [close()] succeeds
    and gives a valid polygon: the coordinates are kept, followed by a
    copy of the first one unless the polygon was closed already, nothing
    else changes, and closing again changes nothing. On a polygon with a
    single coordinate one [close()] is not enough: it gives two equal
    coordinates, which is not a valid polygon, and a second [close()]
    gives three, which is. *)
Theorem X15_close_makes_valid_from_two_coordinates :
  (forall p : Polygon, (2 <= length (coordinates p))%nat ->
     exists p',
       Poly.close p = Ok p' /\
       Poly.is_valid p' = true /\
       Poly.close p' = Ok p' /\
       osm_id p' = osm_id p /\ polygon_type p' = polygon_type p /\
       tags p' = tags p /\ properties p' = properties p /\
       coordinates p' =
         coordinates p ++
         (if Poly.is_closed p then [] else take 1 (coordinates p))) /\
  (forall (p : Polygon) (c : point), coordinates p = [c] ->
     exists p1 p2,
       Poly.close p = Ok p1 /\ coordinates p1 = [c; c] /\
       Poly.is_valid p1 = false /\
       Poly.close p1 = Ok p2 /\ coordinates p2 = [c; c; c] /\
       Poly.is_valid p2 = true).
Proof.
  split.
  - intros p Hlen. unfold Poly.close.
    destruct (Poly.is_closed p) eqn:Ec; cbn.
    + exists p. rewrite app_nil_r.
      rewrite (is_valid_eq_is_closed p), Ec. auto 10.
    + destruct (coordinates p) as [|c cs] eqn:Ecs; [cbn in Hlen; lia|].
      cbn. exists (Poly.append p c).
      assert (Hclosed : Poly.is_closed (Poly.append p c) = true).
      { unfold Poly.is_closed, Poly.append. cbn [coordinates].
        rewrite Ecs, first_eq_last_snoc, length_app. cbn [length] in *.
        destruct (Z.ltb_spec (Z.of_nat (S (length cs) + 1)) 3);
          [lia|reflexivity]. }
      split; [reflexivity|].
      split; [rewrite (is_valid_eq_is_closed _); exact Hclosed|].
      rewrite Hclosed. cbn. rewrite Ecs. auto 10.
  - intros p c Hc.
    set (p1 := Poly.append p c). set (p2 := Poly.append p1 c).
    assert (H0 : Poly.is_closed p = false)
      by (unfold Poly.is_closed; rewrite Hc; reflexivity).
    assert (H1 : Poly.is_closed p1 = false)
      by (unfold Poly.is_closed, p1, Poly.append; cbn; rewrite Hc; reflexivity).
    assert (H2 : Poly.is_closed p2 = true).
    { unfold Poly.is_closed, p2, p1, Poly.append. cbn [coordinates].
      rewrite Hc. cbn. apply point_eqb_refl. }
    exists p1, p2.
    split; [unfold Poly.close; rewrite H0, Hc; reflexivity|].
    split; [unfold p1; cbn; rewrite Hc; reflexivity|].
    split; [rewrite (is_valid_eq_is_closed _); exact H1|].
    split; [unfold Poly.close; rewrite H1; cbn; rewrite Hc; reflexivity|].
    split; [unfold p2, p1; cbn; rewrite Hc; reflexivity|].
    rewrite (is_valid_eq_is_closed _). exact H2.
Qed.

Lemma X15_close_makes_valid_from_two_coordinates_witness :
  (exists p', Poly.close empty_polygon = Raise IndexError /\
              Poly.close tagged_polygon = Ok p' /\ Poly.is_valid p' = true) /\
  (exists p1 p2, Poly.close dot_polygon = Ok p1 /\
                 Poly.is_valid p1 = false /\
                 Poly.close p1 = Ok p2 /\ Poly.is_valid p2 = true).
Proof.
  pose proof X15_close_makes_valid_from_two_coordinates as [H2 H1].
  split.
  - destruct (H2 tagged_polygon ltac:(cbn; lia)) as (p' & Hc & Hv & _).
    exists p'. split; [reflexivity|]. split; [exact Hc|exact Hv].
  - destruct (H1 dot_polygon (3, 5)%Q eq_refl)
      as (p1 & p2 & Ha & _ & Hb & Hc & _ & Hd).
    exists p1, p2. auto.
Defined.

(** ** Further properties of the cache *)

(** X17. [save] returns the polygon it was given and changes the cache
    only: afterwards [find_by_id] on the polygon's id finds that polygon,
    [find_by_id] on any other id answers what it answered before, and
    [get_cache_size] has grown by one when the id was new and not at all
    when it was present. *)
Theorem X17_save_then_find_by_id (p : Polygon) (s : state) :
  exists s1,
    Repo.save p s = (Ok p, s1) /\
    calls s1 = calls s /\ events s1 = events s /\
    Repo.find_by_id (osm_id p) s1 = (Ok (Some p), s1) /\
    (forall j, j <> osm_id p ->
       (Repo.find_by_id j s1).1 = (Repo.find_by_id j s).1) /\
    (Repo.get_cache_size s1).1 =
      Ok (match cache s !! osm_id p with
          | Some _ => Z.of_nat (size (cache s))
          | None => Z.of_nat (size (cache s)) + 1
          end).
Proof.
  eexists. split; [apply save_cache|]. cbn [calls events].
  split; [reflexivity|]. split; [reflexivity|].
  unfold Repo.find_by_id, Repo.get_cache_size. cbn [cache fst].
  split; [rewrite lookup_insert_eq; reflexivity|]. split.
  - intros j Hj. rewrite lookup_insert_ne by congruence. reflexivity.
  - destruct (cache s !! osm_id p) as [q|] eqn:E.
    + rewrite map_size_insert_Some by eauto. reflexivity.
    + rewrite map_size_insert_None by exact E. f_equal. lia.
Qed.

(** X18. Saving a polygon under an id the cache does not hold and then
    deleting that id gives back the cache as it was, [delete] answering
    [True]; after any [delete] of an id, [find_by_id] on it answers
    [None] and a second [delete] answers [False] and changes nothing. *)
Theorem X18_delete_undoes_save :
  (forall (p : Polygon) (s : state),
      cache s !! osm_id p = None ->
      exists s1 s2,
        Repo.save p s = (Ok p, s1) /\
        Repo.delete (osm_id p) s1 = (Ok true, s2) /\
        s2 = s) /\
  (forall (item_id : Z) (s : state),
      exists b s1,
        Repo.delete item_id s = (Ok b, s1) /\
        Repo.find_by_id item_id s1 = (Ok None, s1) /\
        Repo.delete item_id s1 = (Ok false, s1)).
Proof.
  split.
  - intros p s Hfresh. eexists _, _. split; [apply save_cache|].
    unfold Repo.delete. cbn [cache calls events].
    rewrite lookup_insert_eq, bool_decide_eq_true_2 by eauto.
    split; [reflexivity|].
    rewrite delete_insert_eq, delete_id by exact Hfresh.
    destruct s; reflexivity.
  - intros item_id s. unfold Repo.delete at 1.
    destruct (bool_decide (is_Some (cache s !! item_id))) eqn:E.
    + eexists _, _. split; [reflexivity|].
      unfold Repo.find_by_id, Repo.delete. cbn [cache].
      rewrite lookup_delete_eq.
      rewrite bool_decide_eq_false_2 by (intros [? ?]; discriminate).
      split; reflexivity.
    + apply bool_decide_eq_false in E.
      assert (Hnone : cache s !! item_id = None).
      { destruct (cache s !! item_id) eqn:El; [|reflexivity].
        exfalso. apply E. eauto. }
      eexists _, _. split; [reflexivity|].
      unfold Repo.find_by_id, Repo.delete. rewrite Hnone.
      rewrite bool_decide_eq_false_2 by (intros [? ?]; discriminate).
      split; reflexivity.
Qed.

Lemma X18_delete_undoes_save_witness :
  exists s1,
    Repo.save simple_polygon (mkState 0 [] ∅) = (Ok simple_polygon, s1) /\
    Repo.delete 123 s1 = (Ok true, mkState 0 [] ∅).
Proof.
  destruct (proj1 X18_delete_undoes_save simple_polygon (mkState 0 [] ∅)
              ltac:(apply lookup_empty)) as (s1 & s2 & H1 & H2 & ->).
  exists s1. split; [exact H1|exact H2].
Defined.

(** X19. [clear_cache] empties the cache and nothing else: afterwards
    [get_cache_size] answers 0, [find_by_id] answers [None] for every id
    and [delete] answers [False] for every id. *)
Theorem X19_clear_cache_empties (s : state) :
  exists s1,
    Repo.clear_cache s = (Ok tt, s1) /\
    calls s1 = calls s /\ events s1 = events s /\
    Repo.get_cache_size s1 = (Ok 0, s1) /\
    (forall j, Repo.find_by_id j s1 = (Ok None, s1)) /\
    (forall j, Repo.delete j s1 = (Ok false, s1)).
Proof.
  eexists. split; [reflexivity|]. cbn [calls events].
  split; [reflexivity|]. split; [reflexivity|].
  unfold Repo.get_cache_size, Repo.find_by_id, Repo.delete. cbn [cache].
  split; [rewrite map_size_empty; reflexivity|].
  split; intros j; rewrite lookup_empty; [reflexivity|].
  rewrite bool_decide_eq_false_2 by (intros [? ?]; discriminate).
  reflexivity.
Qed.

(** ** Further properties of the GeoJSON export *)

(** X20. The feature of a polygon always has the keys [osm_id] and
    [type] among its properties, together with every key of the polygon's
    tags and of its properties, and no other key; its geometry is of type
    [Polygon] with a single ring, the polygon's coordinates as they are,
    closed or not. *)
Theorem X20_feature_keys_and_ring (p : Polygon) :
  dom (feature_properties (Poly.to_geojson_feature p)) =
    {[ "osm_id"; "type" ]} ∪ dom (tags p) ∪ dom (properties p) /\
  feature_type (Poly.to_geojson_feature p) = "Feature" /\
  geometry_type (feature_geometry (Poly.to_geojson_feature p)) = "Polygon" /\
  geometry_coordinates (feature_geometry (Poly.to_geojson_feature p)) =
    [coordinates p].
Proof.
  split; [|repeat split].
  cbn [Poly.to_geojson_feature feature_properties].
  unfold Poly.feature_props, Poly.update. cbv zeta.
  rewrite !dom_union_L, dom_fmap_L, !dom_insert_L, dom_empty_L.
  apply set_eq. intros key. rewrite !elem_of_union, elem_of_empty. tauto.
Qed.

(** ** Properties of the service *)

Lemma Float_lt_true (a b : Q) : Float.lt a b = true <-> (a < b)%Q.
Proof.
  unfold Float.lt. rewrite negb_true_iff. apply (Float_le_false b a).
Qed.

Lemma Float_lt_false (a b : Q) : Float.lt a b = false <-> (b <= a)%Q.
Proof.
  unfold Float.lt. rewrite negb_false_iff. apply Qle_bool_iff.
Qed.

Lemma filter_filter {A} (f g : A -> bool) (l : list A) :
  List.filter f (List.filter g l) = List.filter (fun x => g x && f x) l.
Proof.
  induction l as [|x l IH]; [reflexivity|]. cbn.
  destruct (g x); cbn; [|exact IH].
  destruct (f x); [f_equal|]; exact IH.
Qed.

Lemma filter_by_area_filter fa polygons min_area max_area :
  Service.filter_by_area fa polygons min_area max_area =
  List.filter (in_area_range fa min_area max_area) polygons.
Proof.
  unfold Service.filter_by_area, in_area_range.
  destruct max_area as [mx|]; [apply filter_filter|].
  apply List.filter_ext. intros p. rewrite andb_true_r. reflexivity.
Qed.

Lemma in_area_range_spec fa min_area max_area p :
  in_area_range fa min_area max_area p = true <->
  (min_area <= Poly.get_area fa p)%Q /\
  (forall mx, max_area = Some mx -> (Poly.get_area fa p <= mx)%Q).
Proof.
  unfold in_area_range, Float.ge.
  fold (Float.le min_area (Poly.get_area fa p)).
  rewrite andb_true_iff, Float_le_true.
  destruct max_area as [mx|].
  - rewrite Float_le_true. split.
    + intros [H1 H2]. split; [exact H1|]. intros ? [= <-]. exact H2.
    + intros [H1 H2]. split; [exact H1|]. apply H2. reflexivity.
  - split; [intros [H1 _]; split; [exact H1|discriminate]|].
    intros [H1 _]. auto.
Qed.

(** X21. [filter_by_area] keeps exactly the polygons whose area is at
    least [min_area] and, when [max_area] is given, at most [max_area],
    both bounds included; it keeps them in their order, a list put after
    another being filtered after it, and filtering the result again with
    the same bounds changes nothing. *)
Theorem X21_filter_by_area_keeps_the_range
    (fa : Float.arith) (min_area : Q) (max_area : option Q) :
  (forall polygons p,
      In p (Service.filter_by_area fa polygons min_area max_area) <->
      In p polygons /\
      (min_area <= Poly.get_area fa p)%Q /\
      (forall mx, max_area = Some mx -> (Poly.get_area fa p <= mx)%Q)) /\
  (forall l1 l2,
      Service.filter_by_area fa (l1 ++ l2) min_area max_area =
      Service.filter_by_area fa l1 min_area max_area ++
      Service.filter_by_area fa l2 min_area max_area) /\
  (forall polygons,
      Service.filter_by_area fa
        (Service.filter_by_area fa polygons min_area max_area)
        min_area max_area =
      Service.filter_by_area fa polygons min_area max_area).
Proof.
  split; [|split].
  - intros polygons p.
    rewrite filter_by_area_filter, List.filter_In, in_area_range_spec.
    reflexivity.
  - intros l1 l2. rewrite !filter_by_area_filter. apply List.filter_app.
  - intros polygons. rewrite !filter_by_area_filter, filter_filter.
    apply List.filter_ext. intros p. apply andb_diag.
Qed.

(** X22. With a maximum below the minimum [filter_by_area] returns the
    empty list, whatever the polygons are; and the polygons that are not
    closed or have fewer than three coordinates, whose area is [0.0], are
    kept exactly when the minimum is at most zero and the maximum, when
    given, at least zero. *)
Theorem X22_filter_by_area_extreme_bounds
    (fa : Float.arith) (polygons : list Polygon) :
  (forall min_area mx, (mx < min_area)%Q ->
     Service.filter_by_area fa polygons min_area (Some mx) = []) /\
  (forall min_area max_area p,
     Poly.is_closed p = false ->
     (In p (Service.filter_by_area fa polygons min_area max_area) <->
      In p polygons /\ (min_area <= 0)%Q /\
      (forall mx, max_area = Some mx -> (0 <= mx)%Q))).
Proof.
  split.
  - intros min_area mx Hlt. rewrite filter_by_area_filter.
    induction polygons as [|p ps IH]; [reflexivity|]. cbn [List.filter].
    destruct (in_area_range fa min_area (Some mx) p) eqn:E; [|exact IH].
    apply in_area_range_spec in E as [H1 H2].
    specialize (H2 mx eq_refl). lra.
  - intros min_area max_area p Hopen.
    rewrite filter_by_area_filter, List.filter_In, in_area_range_spec.
    unfold Poly.get_area. rewrite Hopen. reflexivity.
Qed.

Lemma X22_filter_by_area_extreme_bounds_witness :
  Service.filter_by_area exact_arith [simple_polygon; unclosed_polygon]
                         2%Q (Some 1%Q) = [] /\
  In unclosed_polygon
     (Service.filter_by_area exact_arith [simple_polygon; unclosed_polygon]
                             0%Q (Some (1 # 2))).
Proof.
  pose proof (X22_filter_by_area_extreme_bounds exact_arith
                [simple_polygon; unclosed_polygon]) as (H1 & H2).
  split.
  - apply H1. reflexivity.
  - apply H2; [reflexivity|].
    split; [right; left; reflexivity|].
    split; [discriminate|]. intros mx [= <-]. discriminate.
Defined.

(** X23. [filter_by_tag_value] keeps, in order, exactly the polygons whose
    tags hold the key with that very value; a polygon without the key is
    dropped. Filtering by tag and filtering by area can be done in either
    order, and filtering the same key by two different values leaves
    nothing. *)
Theorem X23_filter_by_tag_value_keeps_matching
    (fa : Float.arith) (tag_key tag_value : string) :
  (forall polygons p,
      In p (Service.filter_by_tag_value polygons tag_key tag_value) <->
      In p polygons /\ tags p !! tag_key = Some tag_value) /\
  (forall polygons min_area max_area,
      Service.filter_by_area fa
        (Service.filter_by_tag_value polygons tag_key tag_value)
        min_area max_area =
      Service.filter_by_tag_value
        (Service.filter_by_area fa polygons min_area max_area)
        tag_key tag_value) /\
  (forall polygons other,
      other <> tag_value ->
      Service.filter_by_tag_value
        (Service.filter_by_tag_value polygons tag_key tag_value)
        tag_key other = []).
Proof.
  split; [|split].
  - intros polygons p. unfold Service.filter_by_tag_value.
    rewrite List.filter_In, bool_decide_eq_true. reflexivity.
  - intros polygons min_area max_area.
    rewrite !filter_by_area_filter. unfold Service.filter_by_tag_value.
    rewrite !filter_filter. apply List.filter_ext.
    intros p. apply andb_comm.
  - intros polygons other Hne. unfold Service.filter_by_tag_value.
    rewrite filter_filter.
    induction polygons as [|p ps IH]; [reflexivity|]. cbn [List.filter].
    destruct (bool_decide (tags p !! tag_key = Some tag_value)) eqn:E1;
      [|exact IH].
    apply bool_decide_eq_true in E1.
    rewrite bool_decide_eq_false_2 by congruence. exact IH.
Qed.

Lemma X23_filter_by_tag_value_keeps_matching_witness :
  Service.filter_by_tag_value
    (Service.filter_by_tag_value
       [simple_polygon; unclosed_polygon; rectangle_polygon]
       "building" "yes")
    "building" "no" = [].
Proof.
  apply (X23_filter_by_tag_value_keeps_matching exact_arith "building" "yes").
  discriminate.
Defined.

Lemma py_min_spec (rest : list Q) : forall first,
  (Service.py_min first rest <= first)%Q /\
  Forall (fun a => (Service.py_min first rest <= a)%Q) rest /\
  In (Service.py_min first rest) (first :: rest).
Proof.
  induction rest as [|a rest IH]; intros first.
  - cbn. split; [apply Qle_refl|]. split; [constructor|left; reflexivity].
  - unfold Service.py_min. cbn [foldl].
    fold (Service.py_min (if Float.lt a first then a else first) rest).
    destruct (IH (if Float.lt a first then a else first)) as (H1 & H2 & H3).
    destruct (Float.lt a first) eqn:E.
    + apply Float_lt_true in E.
      split; [lra|]. split; [constructor; [exact H1|exact H2]|].
      destruct H3 as [<-|H3]; [right; left; reflexivity|right; right; exact H3].
    + apply Float_lt_false in E.
      split; [exact H1|]. split; [constructor; [lra|exact H2]|].
      destruct H3 as [<-|H3]; [left; reflexivity|right; right; exact H3].
Qed.

Lemma py_max_spec (rest : list Q) : forall first,
  (first <= Service.py_max first rest)%Q /\
  Forall (fun a => (a <= Service.py_max first rest)%Q) rest /\
  In (Service.py_max first rest) (first :: rest).
Proof.
  induction rest as [|a rest IH]; intros first.
  - cbn. split; [apply Qle_refl|]. split; [constructor|left; reflexivity].
  - unfold Service.py_max. cbn [foldl].
    fold (Service.py_max (if Float.lt first a then a else first) rest).
    destruct (IH (if Float.lt first a then a else first)) as (H1 & H2 & H3).
    destruct (Float.lt first a) eqn:E.
    + apply Float_lt_true in E.
      split; [lra|]. split; [constructor; [exact H1|exact H2]|].
      destruct H3 as [<-|H3]; [right; left; reflexivity|right; right; exact H3].
    + apply Float_lt_false in E.
      split; [exact H1|]. split; [constructor; [lra|exact H2]|].
      destruct H3 as [<-|H3]; [left; reflexivity|right; right; exact H3].
Qed.

(** The statistics of a non-empty list, field by field. *)
Lemma get_statistics_cons fa (p : Polygon) (ps : list Polygon) :
  let areas := Poly.get_area fa <$> (p :: ps) in
  let st := Service.get_statistics fa (p :: ps) in
  count st = Z.of_nat (length (p :: ps)) /\
  total_area st = Float.sum fa areas /\
  avg_area st =
    Float.div fa (total_area st)
              (inject_Z (Z.of_nat (length (p :: ps)))) /\
  In (min_area st) areas /\ In (max_area st) areas /\
  Forall (fun a => (min_area st <= a <= max_area st)%Q) areas.
Proof.
  cbv zeta. unfold Service.get_statistics.
  cbn [count total_area avg_area min_area max_area].
  destruct (py_min_spec (Poly.get_area fa <$> ps) (Poly.get_area fa p))
    as (Hm1 & Hm2 & Hm3).
  destruct (py_max_spec (Poly.get_area fa <$> ps) (Poly.get_area fa p))
    as (HM1 & HM2 & HM3).
  repeat split; try assumption.
  rewrite fmap_cons. constructor; [split; assumption|].
  rewrite Forall_forall in Hm2, HM2. apply Forall_forall.
  intros a Ha. split; [apply Hm2, Ha|apply HM2, Ha].
Qed.

(** X25. On a non-empty list, [count] is the number of polygons, and
    [min_area] and [max_area] are the areas of polygons of the list and
    bound the area of every polygon of the list, so [min_area] is at most
    [max_area]. *)
Theorem X25_statistics_min_max_are_attained
    (fa : Float.arith) (polygons : list Polygon) :
  polygons <> [] ->
  let st := Service.get_statistics fa polygons in
  count st = Z.of_nat (length polygons) /\
  (exists p, In p polygons /\ min_area st = Poly.get_area fa p) /\
  (exists p, In p polygons /\ max_area st = Poly.get_area fa p) /\
  (forall p, In p polygons ->
     (min_area st <= Poly.get_area fa p <= max_area st)%Q) /\
  (min_area st <= max_area st)%Q.
Proof.
  intros Hne. destruct polygons as [|p ps]; [congruence|].
  destruct (get_statistics_cons fa p ps)
    as (Hc & Ht & Ha & Hmin & Hmax & Hall).
  cbv zeta in *. set (st := Service.get_statistics fa (p :: ps)) in *.
  assert (Hbound : forall q, In q (p :: ps) ->
            (min_area st <= Poly.get_area fa q <= max_area st)%Q).
  { intros q Hq. rewrite Forall_forall in Hall. apply Hall.
    apply list_elem_of_In, List.in_map, Hq. }
  split; [exact Hc|]. split; [|split; [|split]].
  - apply List.in_map_iff in Hmin as (q & Hq & Hin). eauto.
  - apply List.in_map_iff in Hmax as (q & Hq & Hin). eauto.
  - exact Hbound.
  - destruct (Hbound p ltac:(left; reflexivity)) as [H1 H2].
    exact (Qle_trans _ _ _ H1 H2).
Qed.

Lemma X25_statistics_min_max_are_attained_witness :
  exists p,
    In p [rectangle_polygon; unclosed_polygon; simple_polygon] /\
    min_area (Service.get_statistics exact_arith
                [rectangle_polygon; unclosed_polygon; simple_polygon]) =
    Poly.get_area exact_arith p.
Proof.
  destruct (X25_statistics_min_max_are_attained exact_arith
              [rectangle_polygon; unclosed_polygon; simple_polygon]
              ltac:(discriminate)) as (_ & H & _).
  exact H.
Defined.

(** X26. The statistics of what [filter_by_area] keeps stay inside the
    bounds of the filter: when something is kept, [min_area] is at least
    the minimum asked for and, when a maximum was given, [max_area] is at
    most that maximum, and [count] is at most the number of polygons
    filtered. *)
Theorem X26_statistics_of_a_filtered_list
    (fa : Float.arith) (polygons : list Polygon) (lo : Q) (hi : option Q) :
  let kept := Service.filter_by_area fa polygons lo hi in
  let st := Service.get_statistics fa kept in
  count st <= Z.of_nat (length polygons) /\
  (kept <> [] ->
   (lo <= min_area st)%Q /\
   (forall mx, hi = Some mx -> (max_area st <= mx)%Q)).
Proof.
  cbv zeta. split.
  - assert (Hc : forall l, count (Service.get_statistics fa l) =
                           Z.of_nat (length l)).
    { intros [|p ps]; reflexivity. }
    rewrite Hc, filter_by_area_filter.
    pose proof (List.filter_length_le (in_area_range fa lo hi) polygons). lia.
  - intros Hne.
    destruct (Service.filter_by_area fa polygons lo hi) as [|p ps] eqn:E;
      [congruence|].
    destruct (get_statistics_cons fa p ps) as (_ & _ & _ & Hmin & Hmax & _).
    cbv zeta in *.
    assert (Hkept : forall a, In a (Poly.get_area fa <$> p :: ps) ->
              (lo <= a)%Q /\ forall mx, hi = Some mx -> (a <= mx)%Q).
    { intros a Ha. apply List.in_map_iff in Ha as (q & <- & Hq).
      rewrite <- E, filter_by_area_filter in Hq.
      apply List.filter_In in Hq as [_ Hq].
      apply in_area_range_spec, Hq. }
    split; [apply (Hkept _ Hmin)|apply (Hkept _ Hmax)].
Qed.

Lemma X26_statistics_of_a_filtered_list_witness :
  (1 <= min_area (Service.get_statistics exact_arith
                    (Service.filter_by_area exact_arith
                       [rectangle_polygon; unclosed_polygon; simple_polygon]
                       1%Q (Some 2%Q))))%Q.
Proof.
  apply (X26_statistics_of_a_filtered_list exact_arith
           [rectangle_polygon; unclosed_polygon; simple_polygon] 1%Q
           (Some 2%Q)).
  discriminate.
Defined.

(** X27. The five fetching operations of the service behave as
    [find_ways] does: on an invalid bounding box each raises the
    [ValueError] of the box with the state unchanged, hence before any
    request, and on a valid one each returns a list, whatever the
    collaborator does. [get_buildings] asks for exactly what [find_ways]
    asks for when it is given no tags. *)
Theorem X27_service_fetchers_fail_only_on_invalid_bbox
    (net : nat -> GetOutcome) (clock : Q -> option exn)
    (config : OverpassConfig) (str : Q -> string)
    (bbox : BoundingBox) (tags : list (string * string)) (s : state) :
  let fetchers :=
    [Service.get_buildings net clock config str bbox;
     Service.get_industrial_zones net clock config str bbox;
     Service.get_water_areas net clock config str bbox;
     Service.get_parks net clock config str bbox;
     Service.get_polygons_by_tags net clock config str bbox tags] in
  (BBox.is_valid bbox = false ->
   Forall (fun fetch => fetch s = (Raise (Repo.invalid_bbox str bbox), s))
          fetchers) /\
  (BBox.is_valid bbox = true ->
   Forall (fun fetch => exists l s', fetch s = (Ok l, s')) fetchers) /\
  Service.get_buildings net clock config str bbox s =
    Repo.find_ways net clock config str bbox None s.
Proof.
  cbv zeta. split; [|split].
  - intros Hv. repeat constructor; apply find_ways_invalid, Hv.
  - intros Hv.
    repeat constructor;
      unfold Service.get_buildings, Service.get_industrial_zones,
        Service.get_water_areas, Service.get_parks,
        Service.get_polygons_by_tags, Repo.find_by_tags;
      rewrite find_ways_valid by exact Hv; apply query_and_parse_total.
  - reflexivity.
Qed.

Lemma X27_service_fetchers_fail_only_on_invalid_bbox_witness :
  (exists msg,
      Service.get_parks dead_net cpython_clock DEFAULT_CONFIG show_float
                        invalid_bbox_reversed (mkState 0 [] ∅) =
      (Raise (ValueError msg), mkState 0 [] ∅)) /\
  (exists l s',
      Service.get_water_areas dead_net cpython_clock DEFAULT_CONFIG show_float valid_bbox
                              (mkState 0 [] ∅) = (Ok l, s')).
Proof.
  split.
  - destruct (X27_service_fetchers_fail_only_on_invalid_bbox dead_net cpython_clock
                DEFAULT_CONFIG show_float invalid_bbox_reversed []
                (mkState 0 [] ∅)) as (H & _ & _).
    specialize (H eq_refl).
    rewrite Forall_forall in H. eexists.
    apply (H (Service.get_parks dead_net cpython_clock DEFAULT_CONFIG show_float
                invalid_bbox_reversed)).
    do 3 right. left.
  - destruct (X27_service_fetchers_fail_only_on_invalid_bbox dead_net cpython_clock
                DEFAULT_CONFIG show_float valid_bbox []
                (mkState 0 [] ∅)) as (_ & H & _).
    specialize (H eq_refl).
    rewrite Forall_forall in H.
    apply (H (Service.get_water_areas dead_net cpython_clock DEFAULT_CONFIG show_float
                valid_bbox)).
    do 2 right. left.
Defined.

(** ** A further property of bounding boxes *)

(** X28. [BoundingBox.is_valid] accepts exactly the boxes with
    [-90 <= lat_min < lat_max <= 90] and
    [-180 <= lon_min < lon_max <= 180]; an accepted box therefore has a
    height above 0 and at most 180 degrees and a width above 0 and at most
    360 degrees, and a box reduced to a point or a line is refused. *)
Theorem X28_valid_bbox_lies_in_the_world (b : BoundingBox) :
  (BBox.is_valid b = true <->
   (-90 # 1 <= lat_min b)%Q /\ (lat_min b < lat_max b)%Q /\
   (lat_max b <= 90 # 1)%Q /\
   (-180 # 1 <= lon_min b)%Q /\ (lon_min b < lon_max b)%Q /\
   (lon_max b <= 180 # 1)%Q) /\
  (BBox.is_valid b = true ->
   (0 < lat_max b - lat_min b <= 180 # 1)%Q /\
   (0 < lon_max b - lon_min b <= 360 # 1)%Q).
Proof.
  assert (H : BBox.is_valid b = true <->
            (-90 # 1 <= lat_min b)%Q /\ (lat_min b < lat_max b)%Q /\
            (lat_max b <= 90 # 1)%Q /\
            (-180 # 1 <= lon_min b)%Q /\ (lon_min b < lon_max b)%Q /\
            (lon_max b <= 180 # 1)%Q).
  { unfold BBox.is_valid, Float.ge.
    fold (Float.le (lat_max b) (lat_min b)).
    fold (Float.le (lon_max b) (lon_min b)).
    destruct (Float.le (lat_max b) (lat_min b)) eqn:E1.
    { apply Float_le_true in E1. split; [discriminate|]. intros ?. lra. }
    destruct (Float.le (lon_max b) (lon_min b)) eqn:E2.
    { apply Float_le_true in E2. split; [discriminate|]. intros ?. lra. }
    apply Float_le_false in E1, E2.
    destruct (Float.between _ (lat_min b) _) eqn:E3; cbn [negb];
      [apply Float_between_true in E3
      |apply Float_between_false in E3; unfold BBox.outside in E3;
       split; [discriminate|intros ?; lra]].
    destruct (Float.between _ (lat_max b) _) eqn:E4; cbn [negb];
      [apply Float_between_true in E4
      |apply Float_between_false in E4; unfold BBox.outside in E4;
       split; [discriminate|intros ?; lra]].
    destruct (Float.between _ (lon_min b) _) eqn:E5; cbn [negb];
      [apply Float_between_true in E5
      |apply Float_between_false in E5; unfold BBox.outside in E5;
       split; [discriminate|intros ?; lra]].
    destruct (Float.between _ (lon_max b) _) eqn:E6; cbn [negb];
      [apply Float_between_true in E6
      |apply Float_between_false in E6; unfold BBox.outside in E6;
       split; [discriminate|intros ?; lra]].
    split; [intros _|reflexivity]. repeat split; lra. }
  split; [exact H|]. intros Hv. apply H in Hv. split; split; lra.
Qed.

Lemma X28_valid_bbox_lies_in_the_world_witness :
  (0 < lat_max valid_bbox - lat_min valid_bbox <= 180 # 1)%Q /\
  (0 < lon_max valid_bbox - lon_min valid_bbox <= 360 # 1)%Q.
Proof.
  apply (X28_valid_bbox_lies_in_the_world valid_bbox). reflexivity.
Defined.
